(** * PostProcessing: the motion-blur pass of src/graphics/post_processing.cpp

    A shallow embedding of the [PostProcessing] class.  The object's members
    are a record; the globals it reads and writes (the user configuration
    flag, the race manager's player count), the warnings it logs and the
    calls it issues on the video driver are a second record that every
    method threads through.  The driver handed to [init] and the one reached
    through [irr_driver] are the one video driver of the game: their calls
    go to the same trace, and what the driver answers during [init] is a
    parameter of [init].

    [float] is IEEE-754 binary32, modelled with the Standard Library's
    executable specification of floating-point arithmetic ([SpecFloat]) at
    precision 24 and maximal exponent 128; each C++ floating-point operation
    is one correctly rounded binary32 operation (round to nearest, ties to
    even), a product and a difference being rounded one after the other. *)

From Stdlib Require Import ZArith QArith Bool List String Lia Lqa.
From Stdlib Require Import Floats.SpecFloat.
Import ListNotations.
Local Open Scope Z_scope.

(** ** binary32 *)

Module F32.

Definition prec : Z := 24.
Definition emax : Z := 128.

Definition float32 := spec_float.

Definition valid (x : float32) : bool := valid_binary prec emax x.

Definition is_nan (x : float32) : bool :=
  match x with S754_nan => true | _ => false end.

Definition is_finite (x : float32) : bool :=
  match x with S754_zero _ | S754_finite _ _ _ => true | _ => false end.

(** The binary32 value nearest to [m * 2^e]: how a literal is read. *)
Definition of_dyadic (m e : Z) : float32 := binary_normalize prec emax m e false.

Definition mul (x y : float32) : float32 := SFmul prec emax x y.
Definition sub (x y : float32) : float32 := SFsub prec emax x y.
Definition ltb (x y : float32) : bool := SFltb x y.
Definition leb (x y : float32) : bool := SFleb x y.
Definition eqb (x y : float32) : bool := SFeqb x y.

(** The exact rational value of a finite number (0 for the others). *)
Definition to_Q (x : float32) : Q :=
  match x with
  | S754_finite s m e =>
      let n := if s then Zneg m else Zpos m in
      match e with
      | Z0 => n # 1
      | Zpos p => (n * 2 ^ Zpos p) # 1
      | Zneg p => n # (2 ^ p)
      end
  | _ => 0%Q
  end.

(** [0.0f], [2.5f], [3.5f], [1.0f] and [-1.0f]. *)
Definition zero : float32 := S754_zero false.
Definition c2_5 : float32 := Eval vm_compute in of_dyadic 5 (-1).
Definition c3_5 : float32 := Eval vm_compute in of_dyadic 7 (-1).
Definition one : float32 := Eval vm_compute in of_dyadic 1 0.
Definition minus_one : float32 := Eval vm_compute in of_dyadic (-1) 0.

End F32.

(** ** The engine: what the object sees of Irrlicht and of the game *)

Inductive E_VIDEO_DRIVER_FEATURE :=
  | EVDF_ARB_GLSL
  | EVDF_PIXEL_SHADER_2_0
  | EVDF_RENDER_TO_TARGET
  | EVDF_TEXTURE_NSQUARE
  | EVDF_TEXTURE_NPOT.

Inductive E_VERTEX_SHADER_TYPE := EVST_VS_2_0.
Inductive E_PIXEL_SHADER_TYPE := EPST_PS_2_0.
Inductive E_MATERIAL_TYPE := EMT_SOLID.
Inductive E_RENDER_TARGET := ERT_FRAME_BUFFER.

Record dimension2du := { Width : N; Height : N }.

(** An [ITexture*]: [None] is the null pointer. *)
Definition ITexture_ptr := option positive.

(** The part of [video::SMaterial] that this file writes. *)
Record SMaterial := {
  MaterialType : Z;
  Texture0 : ITexture_ptr;
  Wireframe : bool;
  Lighting : bool;
  ZWriteEnable : bool
}.

Record SColor := { alpha : N; red : N; green : N; blue : N }.

Record S3DVertex := {
  Pos : F32.float32 * F32.float32 * F32.float32;
  Normal : F32.float32 * F32.float32 * F32.float32;
  Color : SColor;
  TCoords : F32.float32 * F32.float32
}.

(** The calls the object issues on the video driver and on its GPU
    programming services, with their arguments. *)
Inductive DriverCall :=
  | QueryFeature (f : E_VIDEO_DRIVER_FEATURE)
  | GetScreenSize
  | AddRenderTargetTexture (size : dimension2du) (name : string)
  | GetGPUProgrammingServices
  | AddHighLevelShaderMaterialFromFiles
      (vertexShaderProgram vertexShaderEntryPoint : string) (vsCompileTarget : E_VERTEX_SHADER_TYPE)
      (pixelShaderProgram pixelShaderEntryPoint : string) (psCompileTarget : E_PIXEL_SHADER_TYPE)
      (baseMaterial : E_MATERIAL_TYPE)
  | SetRenderTargetTexture (texture : ITexture_ptr) (clearBackBuffer clearZBuffer : bool)
  | SetRenderTarget (target : E_RENDER_TARGET) (clearTarget clearZBuffer : bool) (color : N)
  | SetMaterial (material : SMaterial)
  | DrawIndexedTriangleList
      (vertices : list S3DVertex) (vertexCount : N) (indexList : list N) (triangleCount : N).

(** The calls of the shader-constant callback on [IMaterialRendererServices]. *)
Inductive ServicesCall :=
  | SetPixelShaderConstantFloat (name : string) (floats : list F32.float32) (count : Z)
  | SetPixelShaderConstantInt (name : string) (ints : list Z) (count : Z).

(** What the driver and the file manager answer during [init].
    [getOptimalSize] is [core::dimension2d::getOptimalSize] of the engine. *)
Record Engine := {
  queryFeature : E_VIDEO_DRIVER_FEATURE -> bool;
  getScreenSize : dimension2du;
  getOptimalSize : dimension2du -> bool -> bool -> dimension2du;
  addRenderTargetTexture : dimension2du -> string -> ITexture_ptr;
  addHighLevelShaderMaterialFromFiles : string -> string -> Z;
  getShaderDir : string
}.

(** Everything outside the object that its methods read or write. *)
Record World := {
  m_postprocess_enabled : bool;          (* UserConfigParams::m_postprocess_enabled *)
  getNumPlayers : N;                     (* race_manager->getNumPlayers() *)
  driver_calls : list DriverCall;        (* calls issued so far, oldest first *)
  services_calls : list ServicesCall;
  warnings : list (string * string)      (* Log::warn(tag, message), oldest first *)
}.

(** ** The object *)

Record PostProcessing := {
  m_supported : bool;
  m_used_pp_this_frame : bool;
  m_boost_amount : F32.float32;
  m_render_target : ITexture_ptr;
  m_material : SMaterial
}.

Definition State : Type := PostProcessing * World.

(** A state monad over the object and its world. *)
Definition M (A : Type) : Type := State -> A * State.

Definition ret {A} (a : A) : M A := fun st => (a, st).

Definition bind {A B} (c : M A) (k : A -> M B) : M B :=
  fun st => let (a, st') := c st in k a st'.

Declare Scope pp_scope.
Delimit Scope pp_scope with pp.
Notation "x <- c ;; k" := (bind c (fun x => k))
  (at level 61, c at next level, right associativity) : pp_scope.
Notation "c ;; k" := (bind c (fun _ => k))
  (at level 61, right associativity) : pp_scope.
Local Open Scope pp_scope.

Definition this : M PostProcessing := fun st => (fst st, st).
Definition world : M World := fun st => (snd st, st).

Definition modify_this (f : PostProcessing -> PostProcessing) : M unit :=
  fun st => (tt, (f (fst st), snd st)).

Definition modify_world (f : World -> World) : M unit :=
  fun st => (tt, (fst st, f (snd st))).

Definition when (b : bool) (c : M unit) : M unit := if b then c else ret tt.

Definition exec {A} (c : M A) (st : State) : State := snd (c st).

Definition set_m_supported (v : bool) (p : PostProcessing) : PostProcessing :=
  {| m_supported := v; m_used_pp_this_frame := m_used_pp_this_frame p;
     m_boost_amount := m_boost_amount p; m_render_target := m_render_target p;
     m_material := m_material p |}.

Definition set_m_used_pp_this_frame (v : bool) (p : PostProcessing) : PostProcessing :=
  {| m_supported := m_supported p; m_used_pp_this_frame := v;
     m_boost_amount := m_boost_amount p; m_render_target := m_render_target p;
     m_material := m_material p |}.

Definition set_m_boost_amount (v : F32.float32) (p : PostProcessing) : PostProcessing :=
  {| m_supported := m_supported p; m_used_pp_this_frame := m_used_pp_this_frame p;
     m_boost_amount := v; m_render_target := m_render_target p;
     m_material := m_material p |}.

Definition set_m_render_target (v : ITexture_ptr) (p : PostProcessing) : PostProcessing :=
  {| m_supported := m_supported p; m_used_pp_this_frame := m_used_pp_this_frame p;
     m_boost_amount := m_boost_amount p; m_render_target := v;
     m_material := m_material p |}.

Definition set_m_material (v : SMaterial) (p : PostProcessing) : PostProcessing :=
  {| m_supported := m_supported p; m_used_pp_this_frame := m_used_pp_this_frame p;
     m_boost_amount := m_boost_amount p; m_render_target := m_render_target p;
     m_material := v |}.

Definition set_m_postprocess_enabled (v : bool) (w : World) : World :=
  {| m_postprocess_enabled := v; getNumPlayers := getNumPlayers w;
     driver_calls := driver_calls w; services_calls := services_calls w;
     warnings := warnings w |}.

Definition log_driver_call (c : DriverCall) (w : World) : World :=
  {| m_postprocess_enabled := m_postprocess_enabled w; getNumPlayers := getNumPlayers w;
     driver_calls := driver_calls w ++ [c]; services_calls := services_calls w;
     warnings := warnings w |}.

Definition log_services_call (c : ServicesCall) (w : World) : World :=
  {| m_postprocess_enabled := m_postprocess_enabled w; getNumPlayers := getNumPlayers w;
     driver_calls := driver_calls w; services_calls := services_calls w ++ [c];
     warnings := warnings w |}.

Definition log_warning (tag msg : string) (w : World) : World :=
  {| m_postprocess_enabled := m_postprocess_enabled w; getNumPlayers := getNumPlayers w;
     driver_calls := driver_calls w; services_calls := services_calls w;
     warnings := warnings w ++ [(tag, msg)] |}.

(** A call on the video driver: recorded, and answered with [answer]. *)
Definition driver {A} (c : DriverCall) (answer : A) : M A :=
  modify_world (log_driver_call c) ;; ret answer.

Definition services (c : ServicesCall) : M unit := modify_world (log_services_call c).

Definition Log_warn (tag msg : string) : M unit := modify_world (log_warning tag msg).

(** [a && b] of C++: [b] is evaluated only when [a] holds. *)
Definition and_then (a b : M bool) : M bool :=
  x <- a ;; if x then b else ret false.

(** [PostProcessing::PostProcessing]: only [m_boost_amount] is initialised;
    [uninitialised] stands for what the other members hold. *)
Definition PostProcessing_new (uninitialised : PostProcessing) : PostProcessing :=
  set_m_boost_amount F32.zero uninitialised.

Definition init (video_driver : Engine) : M unit :=
  modify_this (set_m_supported false) ;;
  ok <- and_then (driver (QueryFeature EVDF_ARB_GLSL) (queryFeature video_driver EVDF_ARB_GLSL))
       (and_then (driver (QueryFeature EVDF_PIXEL_SHADER_2_0)
                         (queryFeature video_driver EVDF_PIXEL_SHADER_2_0))
                 (driver (QueryFeature EVDF_RENDER_TO_TARGET)
                         (queryFeature video_driver EVDF_RENDER_TO_TARGET))) ;;
  when ok (modify_this (set_m_supported true)) ;;
  nonsquare <- driver (QueryFeature EVDF_TEXTURE_NSQUARE)
                      (queryFeature video_driver EVDF_TEXTURE_NSQUARE) ;;
  nonpower <- driver (QueryFeature EVDF_TEXTURE_NPOT)
                     (queryFeature video_driver EVDF_TEXTURE_NPOT) ;;
  when (negb nonpower)
       (Log_warn "PostProcessing" "Only power of two textures are supported.") ;;
  when (negb nonsquare)
       (Log_warn "PostProcessing" "Only square textures are supported.") ;;
  p <- this ;;
  when (m_supported p)
    (screen <- driver GetScreenSize (getScreenSize video_driver) ;;
     let opt := getOptimalSize video_driver screen (negb nonpower) (negb nonsquare) in
     target <- driver (AddRenderTargetTexture opt "postprocess")
                      (addRenderTargetTexture video_driver opt "postprocess") ;;
     modify_this (set_m_render_target target) ;;
     when (match target with None => true | Some _ => false end)
          (Log_warn "PostProcessing"
             "Couldn't create the render target for post-processing, disabling it." ;;
           modify_world (set_m_postprocess_enabled false)) ;;
     driver GetGPUProgrammingServices tt ;;
     let vert := (getShaderDir video_driver ++ "motion_blur.vert")%string in
     let frag := (getShaderDir video_driver ++ "motion_blur.frag")%string in
     material_type <-
       driver (AddHighLevelShaderMaterialFromFiles
                 vert "main" EVST_VS_2_0 frag "main" EPST_PS_2_0 EMT_SOLID)
              (addHighLevelShaderMaterialFromFiles video_driver vert frag) ;;
     p <- this ;;
     modify_this (set_m_material
       {| MaterialType := material_type;
          Texture0 := m_render_target p;
          Wireframe := false;
          Lighting := false;
          ZWriteEnable := false |})).

Definition shut : M unit :=
  p <- this ;;
  if negb (m_supported p) then ret tt else ret tt.

(** The test that opens [beginCapture], [endCapture] and [render]. *)
Definition skipped (p : PostProcessing) (w : World) : bool :=
  negb (m_supported p) || negb (m_postprocess_enabled w) || (1 <? getNumPlayers w)%N.

Definition beginCapture : M unit :=
  p <- this ;; w <- world ;;
  if skipped p w then ret tt
  else if F32.leb (m_boost_amount p) F32.zero then
    modify_this (set_m_used_pp_this_frame false)
  else
    modify_this (set_m_used_pp_this_frame true) ;;
    driver (SetRenderTargetTexture (m_render_target p) true true) tt.

Definition endCapture : M unit :=
  p <- this ;; w <- world ;;
  if skipped p w then ret tt
  else when (m_used_pp_this_frame p)
            (driver (SetRenderTarget ERT_FRAME_BUFFER true true 0) tt).

Definition update (dt : F32.float32) : M unit :=
  p <- this ;;
  when (F32.ltb F32.zero (m_boost_amount p))
    (modify_this (set_m_boost_amount (F32.sub (m_boost_amount p) (F32.mul dt F32.c3_5))) ;;
     p <- this ;;
     when (F32.ltb (m_boost_amount p) F32.zero)
          (modify_this (set_m_boost_amount F32.zero))).

Definition white : SColor := {| alpha := 255; red := 255; green := 255; blue := 255 |}.

Definition vertex (x y z nx ny nz : F32.float32) (c : SColor) (tu tv : F32.float32) : S3DVertex :=
  {| Pos := (x, y, z); Normal := (nx, ny, nz); Color := c; TCoords := (tu, tv) |}.

Definition render : M unit :=
  p <- this ;; w <- world ;;
  if skipped p w then ret tt
  else if negb (m_used_pp_this_frame p) then ret tt
  else
    let vertices :=
      [ vertex F32.minus_one F32.minus_one F32.zero F32.zero F32.zero F32.one white F32.zero F32.one;
        vertex F32.minus_one F32.one F32.zero F32.zero F32.zero F32.one white F32.zero F32.zero;
        vertex F32.one F32.one F32.zero F32.zero F32.zero F32.one white F32.one F32.zero;
        vertex F32.one F32.minus_one F32.zero F32.zero F32.zero F32.one white F32.one F32.one ] in
    let indices := [0; 1; 2; 3; 0; 2]%N in
    driver (SetMaterial (m_material p)) tt ;;
    driver (DrawIndexedTriangleList vertices 4 indices 2) tt.

Definition giveBoost : M unit := modify_this (set_m_boost_amount F32.c2_5).

Definition OnSetConstants (user_data : Z) : M unit :=
  p <- this ;;
  services (SetPixelShaderConstantFloat "boost_amount" [m_boost_amount p] 1) ;;
  let texunit := 0 in
  services (SetPixelShaderConstantInt "color_buffer" [texunit] 1).

(** ** Sequences of calls *)

Inductive Op :=
  | OpInit (video_driver : Engine)
  | OpShut
  | OpBeginCapture
  | OpEndCapture
  | OpUpdate (dt : F32.float32)
  | OpRender
  | OpGiveBoost
  | OpOnSetConstants (user_data : Z).

Definition call (op : Op) : M unit :=
  match op with
  | OpInit video_driver => init video_driver
  | OpShut => shut
  | OpBeginCapture => beginCapture
  | OpEndCapture => endCapture
  | OpUpdate dt => update dt
  | OpRender => render
  | OpGiveBoost => giveBoost
  | OpOnSetConstants user_data => OnSetConstants user_data
  end.

Definition run (ops : list Op) (st : State) : State :=
  fold_left (fun st op => exec (call op) st) ops st.

Definition is_init (op : Op) : bool :=
  match op with OpInit _ => true | _ => false end.

Definition boost (st : State) : F32.float32 := m_boost_amount (fst st).

(** The feature is on when the hardware supports it and the user enabled it. *)
Definition feature_on (st : State) : bool :=
  m_supported (fst st) && m_postprocess_enabled (snd st).

(** ** Notions used to reason about binary32 rounding *)

(** Whether a right shift has lost a non-zero bit. *)
Definition inexact (mrs : shr_record) : bool := shr_r mrs || shr_s mrs.

(** [k] right shifts of [m0], started exact: the quotient, and whether a bit was lost. *)
Definition shifted (m0 k : Z) (mrs : shr_record) : Prop :=
  shr_m mrs = m0 / 2 ^ k /\ (inexact mrs = false <-> m0 mod 2 ^ k = 0).

(** The value of a number in units of the smallest subnormal, [2^emin]
    (infinities sit just above the largest finite number). *)
Definition scaled (prec emax : Z) (x : spec_float) : Z :=
  match x with
  | S754_zero _ | S754_nan => 0
  | S754_infinity s => cond_Zopp s (2 ^ (emax - emin prec emax))
  | S754_finite s m e => cond_Zopp s (Zpos m * 2 ^ (e - emin prec emax))
  end.

(** A finite binary32 number that is [>= 0]: a zero of either sign or a
    valid positive number. *)
Definition nonneg_finite (x : F32.float32) : bool :=
  match x with
  | S754_zero _ => true
  | S754_finite false m e => bounded F32.prec F32.emax m e
  | _ => false
  end.

(** A binary32 number that is [>= 0], plus infinity included. *)
Definition nonneg_valid (x : F32.float32) : bool :=
  match x with
  | S754_zero _ => true
  | S754_infinity false => true
  | S754_finite false m e => bounded F32.prec F32.emax m e
  | _ => false
  end.

(** The result of a rounding with sign [s]: never NaN, always valid. *)
Inductive rounded_shape (prec emax : Z) (s : bool) : spec_float -> Prop :=
  | shape_zero : rounded_shape prec emax s (S754_zero s)
  | shape_infinity : rounded_shape prec emax s (S754_infinity s)
  | shape_finite m e :
      bounded prec emax m e = true -> rounded_shape prec emax s (S754_finite s m e).

Abbreviation scaled32 := (scaled F32.prec F32.emax).
Abbreviation shape32 := (rounded_shape F32.prec F32.emax).

(** What [update] stores: a negative difference becomes [0.0f]. *)
Definition clamp (r : F32.float32) : F32.float32 :=
  if F32.ltb r F32.zero then F32.zero else r.

(** ** Notions used in the statements *)

(** The warnings of [init] about texture dimensions. *)
Definition texture_warnings (video_driver : Engine) : list (string * string) :=
  (if queryFeature video_driver EVDF_TEXTURE_NPOT then []
   else [("PostProcessing", "Only power of two textures are supported.")%string]) ++
  (if queryFeature video_driver EVDF_TEXTURE_NSQUARE then []
   else [("PostProcessing", "Only square textures are supported.")%string]).

(** The three capabilities that [init] requires. *)
Definition capable (video_driver : Engine) : bool :=
  queryFeature video_driver EVDF_ARB_GLSL &&
  queryFeature video_driver EVDF_PIXEL_SHADER_2_0 &&
  queryFeature video_driver EVDF_RENDER_TO_TARGET.

Definition is_query (c : DriverCall) : bool :=
  match c with QueryFeature _ => true | _ => false end.

(** The shader files a driver call reads from disk. *)
Definition shader_files (c : DriverCall) : list string :=
  match c with
  | AddHighLevelShaderMaterialFromFiles vs _ _ ps _ _ _ => [vs; ps]
  | _ => []
  end.

Definition op_dt_is_nan (op : Op) : bool :=
  match op with OpUpdate dt => F32.is_nan dt | _ => false end.

(** Sums of rationals and of integers. *)
Definition Qsum (l : list Q) : Q := fold_right Qplus 0%Q l.

Fixpoint Zsum (l : list Z) : Z :=
  match l with [] => 0 | x :: l => x + Zsum l end.

(** ** Notions used in the further properties *)

(** ** Notions used for whole frames and sequences *)

(** A draw call that stays inside the vertices and indices it is given. *)
Definition draw_in_bounds (c : DriverCall) : bool :=
  match c with
  | DrawIndexedTriangleList vertices vertexCount indexList triangleCount =>
      (N.of_nat (List.length vertices) =? vertexCount)%N &&
      (N.of_nat (List.length indexList) =? 3 * triangleCount)%N &&
      forallb (fun i => (i <? vertexCount)%N) indexList
  | _ => true
  end.

Definition is_quad_draw (c : DriverCall) : bool :=
  match c with
  | DrawIndexedTriangleList _ 4%N _ 2%N => true
  | _ => false
  end.

(** Whether [beginCapture] redirects the scene in this state. *)
Definition captures (p : PostProcessing) (w : World) : bool :=
  negb (skipped p w) && negb (F32.leb (m_boost_amount p) F32.zero).

(** The three per-frame calls that can reach the driver. *)
Definition is_frame_call (op : Op) : bool :=
  match op with OpBeginCapture | OpEndCapture | OpRender => true | _ => false end.

(** A driver call that renders into, or samples from, a null texture. *)
Definition uses_null_texture (c : DriverCall) : bool :=
  match c with
  | SetRenderTargetTexture None _ _ => true
  | SetMaterial m => match Texture0 m with None => true | Some _ => false end
  | _ => false
  end.

(** What the object holds of the driver is usable whenever the per-frame
    calls can pass their guard. *)
Definition resources_ready (st : State) : Prop :=
  m_supported (fst st) = true -> m_postprocess_enabled (snd st) = true ->
  m_render_target (fst st) <> None /\
  Texture0 (m_material (fst st)) = m_render_target (fst st).

Definition op_dt_nonneg (op : Op) : bool :=
  match op with OpUpdate dt => F32.leb F32.zero dt | _ => true end.

(** [x] is an integer multiple of [2^k], for [-149 <= k]. *)
Definition multiple_of_pow2 (k : Z) (x : F32.float32) : bool :=
  scaled32 x mod 2 ^ (k + 149) =? 0.

(** A frame time on the grid of [2^-21] s: finite, [>= 0] and an integer
    multiple of [2^-21]. *)
Definition grid_dt (dt : F32.float32) : bool :=
  nonneg_finite dt && multiple_of_pow2 (-21) dt.

(** The calls that neither initialise nor take part in drawing a frame:
    [shut], [update], [giveBoost] and [OnSetConstants]. *)
Definition is_quiet (op : Op) : bool := negb (is_init op) && negb (is_frame_call op).

Definition set_services_calls (v : list ServicesCall) (w : World) : World :=
  {| m_postprocess_enabled := m_postprocess_enabled w; getNumPlayers := getNumPlayers w;
     driver_calls := driver_calls w; services_calls := v;
     warnings := warnings w |}.

Definition is_shut (op : Op) : bool :=
  match op with OpShut => true | _ => false end.

(** ** Concrete inputs *)

Module Sample.

Definition material : SMaterial :=
  {| MaterialType := 0; Texture0 := None; Wireframe := true; Lighting := true;
     ZWriteEnable := true |}.

(** A freshly constructed object on supporting hardware. *)
Definition object : PostProcessing :=
  PostProcessing_new
    {| m_supported := true; m_used_pp_this_frame := false; m_boost_amount := S754_nan;
       m_render_target := Some 5%positive; m_material := material |}.

Definition unsupported : PostProcessing := set_m_supported false object.

Definition boosted : PostProcessing := set_m_boost_amount F32.c2_5 object.

Definition single_player : World :=
  {| m_postprocess_enabled := true; getNumPlayers := 1; driver_calls := [];
     services_calls := []; warnings := [] |}.

(** A driver answering the five feature queries as given. *)
Definition engine (glsl ps2 rtt nsquare npot : bool) (target : ITexture_ptr) : Engine :=
  {| queryFeature := fun f =>
       match f with
       | EVDF_ARB_GLSL => glsl
       | EVDF_PIXEL_SHADER_2_0 => ps2
       | EVDF_RENDER_TO_TARGET => rtt
       | EVDF_TEXTURE_NSQUARE => nsquare
       | EVDF_TEXTURE_NPOT => npot
       end;
     getScreenSize := {| Width := 800; Height := 600 |};
     getOptimalSize := fun d _ _ => d;
     addRenderTargetTexture := fun _ _ => target;
     addHighLevelShaderMaterialFromFiles := fun _ _ => 24;
     getShaderDir := "data/shaders/" |}.

(** [2^-25] seconds. *)
Definition dt_tiny : F32.float32 := Eval vm_compute in F32.of_dyadic 1 (-25).

(** A frame at 60 Hz: [1.0f / 60.0f]. *)
Definition dt_frame : F32.float32 :=
  Eval vm_compute in SFdiv F32.prec F32.emax F32.one (F32.of_dyadic 60 0).

(** [0.25f] and [0.5f]. *)
Definition quarter : F32.float32 := Eval vm_compute in F32.of_dyadic 1 (-2).
Definition half : F32.float32 := Eval vm_compute in F32.of_dyadic 1 (-1).

(** [FLT_MAX]. *)
Definition max_float : F32.float32 := Eval vm_compute in SFmax_float F32.prec F32.emax.

End Sample.

(** * Properties *)

(** ** Rounding to the format *)

Lemma digits2_pos_bounds p :
  2 ^ (Zpos (digits2_pos p) - 1) <= Zpos p < 2 ^ Zpos (digits2_pos p).
Proof.
  induction p as [p IH | p IH |]; cbn [digits2_pos].
  - rewrite Pos2Z.inj_succ. change (Zpos p~1) with (2 * Zpos p + 1).
    replace (Z.succ (Zpos (digits2_pos p)) - 1) with (Z.succ (Zpos (digits2_pos p) - 1)) by lia.
    rewrite !Z.pow_succ_r by lia.
    generalize dependent (2 ^ (Zpos (digits2_pos p) - 1)).
    generalize dependent (2 ^ Zpos (digits2_pos p)). intros; lia.
  - rewrite Pos2Z.inj_succ. change (Zpos p~0) with (2 * Zpos p).
    replace (Z.succ (Zpos (digits2_pos p)) - 1) with (Z.succ (Zpos (digits2_pos p) - 1)) by lia.
    rewrite !Z.pow_succ_r by lia.
    generalize dependent (2 ^ (Zpos (digits2_pos p) - 1)).
    generalize dependent (2 ^ Zpos (digits2_pos p)). intros; lia.
  - cbn. lia.
Qed.

Lemma digits_le_iff p k : 0 <= k -> (Zpos (digits2_pos p) <= k <-> Zpos p < 2 ^ k).
Proof.
  intros Hk. pose proof (digits2_pos_bounds p) as [Hl Hu]. split; intros H.
  - apply Z.lt_le_trans with (1 := Hu). apply Z.pow_le_mono_r; lia.
  - destruct (Z_le_gt_dec (Zpos (digits2_pos p)) k) as [|Hgt]; [assumption|].
    exfalso. assert (2 ^ k <= 2 ^ (Zpos (digits2_pos p) - 1)) by (apply Z.pow_le_mono_r; lia). lia.
Qed.

Section IterPos.
Context {A : Type} (f : A -> A) (P : Z -> A -> Prop).
Hypothesis step : forall k y, 0 <= k -> P k y -> P (k + 1) (f y).

Lemma iter_pos_steps p : forall k x, 0 <= k -> P k x -> P (k + Zpos p) (iter_pos f p x).
Proof.
  induction p as [p IH | p IH |]; intros k x Hk Hx; cbn [iter_pos].
  - replace (k + Zpos p~1) with (((k + 1) + Zpos p) + Zpos p) by lia.
    apply IH; [lia|]. apply IH; [lia|]. now apply step.
  - replace (k + Zpos p~0) with ((k + Zpos p) + Zpos p) by lia.
    apply IH; [lia|]. now apply IH.
  - now apply step.
Qed.
End IterPos.

Lemma shr_1_nonneg mrs :
  0 <= shr_m mrs ->
  shr_m (shr_1 mrs) = shr_m mrs / 2 /\
  inexact (shr_1 mrs) = negb (Z.even (shr_m mrs)) || inexact mrs.
Proof.
  destruct mrs as [m r s]; unfold inexact; cbn [shr_m shr_r shr_s]. intros Hm.
  destruct m as [|[p|p|]|p]; try lia; cbn [shr_1 shr_m shr_r shr_s].
  - split; [reflexivity|]. now cbn.
  - split; [|now cbn]. change (Zpos p~1) with (2 * Zpos p + 1). apply Z.div_unique with 1; lia.
  - split; [|now cbn]. change (Zpos p~0) with (2 * Zpos p). apply Z.div_unique with 0; lia.
  - split; [|now cbn]. reflexivity.
Qed.

Lemma shifted_step m0 k mrs :
  0 <= m0 -> 0 <= k -> shifted m0 k mrs -> shifted m0 (k + 1) (shr_1 mrs).
Proof.
  intros Hm0 Hk [Hq Hr].
  assert (H2k : 0 < 2 ^ k) by (apply Z.pow_pos_nonneg; lia).
  assert (Hm : 0 <= shr_m mrs) by (rewrite Hq; apply Z.div_pos; lia).
  destruct (shr_1_nonneg mrs Hm) as [Hq' Hr'].
  unfold shifted. rewrite Z.pow_add_r, Z.pow_1_r by lia. split.
  - rewrite Hq', Hq. now rewrite Z.div_div by lia.
  - rewrite Hr', Z.rem_mul_r by lia. rewrite <- Hq.
    rewrite orb_false_iff, negb_false_iff, Hr, Z.even_spec.
    pose proof (Z.mod_pos_bound m0 (2 ^ k) H2k) as Hb1.
    pose proof (Z.mod_pos_bound (shr_m mrs) 2 ltac:(lia)) as Hb2.
    split.
    + intros [[c Hc] Hz]. rewrite Hc, Hz.
      replace (2 * c) with (c * 2) by lia. rewrite Z.mod_mul by lia. lia.
    + intros Hz. assert (m0 mod 2 ^ k = 0 /\ shr_m mrs mod 2 = 0) as [Ha Hb] by nia.
      split; [|assumption]. exists (shr_m mrs / 2).
      pose proof (Z.div_mod (shr_m mrs) 2 ltac:(lia)). lia.
Qed.

Lemma shifted_iter m0 p :
  0 <= m0 ->
  shifted m0 (Zpos p) (iter_pos shr_1 p (Build_shr_record m0 false false)).
Proof.
  intros Hm0.
  apply (iter_pos_steps shr_1 (fun k mrs => shifted m0 k mrs)) with (k := 0) (p := p).
  - intros k y Hk Hy. now apply shifted_step.
  - lia.
  - split; cbn.
    + now rewrite Z.div_1_r.
    + now rewrite Z.mod_1_r.
Qed.

Lemma digits2_pos_unique p k :
  2 ^ (k - 1) <= Zpos p < 2 ^ k -> Zpos (digits2_pos p) = k.
Proof.
  intros [Hl Hu]. pose proof (digits2_pos_bounds p) as [Hl' Hu'].
  assert (Hk : 0 < k).
  { destruct (Z_lt_le_dec 0 k) as [|Hk]; [assumption|]. exfalso.
    destruct (Z.eq_dec k 0) as [->|]; [cbn in Hu; lia|].
    rewrite Z.pow_neg_r in Hu by lia. lia. }
  destruct (Z.lt_trichotomy (Zpos (digits2_pos p)) k) as [Hlt|[Heq|Hgt]]; [|assumption|]; exfalso.
  - assert (2 ^ Zpos (digits2_pos p) <= 2 ^ (k - 1)) by (apply Z.pow_le_mono_r; lia). lia.
  - assert (2 ^ k <= 2 ^ (Zpos (digits2_pos p) - 1)) by (apply Z.pow_le_mono_r; lia). lia.
Qed.

Lemma rne_spec mrs :
  let m1 := round_nearest_even (shr_m mrs) (loc_of_shr_record mrs) in
  m1 = shr_m mrs \/ (inexact mrs = true /\ m1 = shr_m mrs + 1).
Proof.
  destruct mrs as [m [|] [|]]; unfold inexact; cbn; auto.
  destruct (Z.even m); auto.
Qed.

Section Rounding.
Variables prec emax : Z.
Hypothesis Hprec : 0 < prec.
Hypothesis Hemax : prec < emax.

Abbreviation emin := (emin prec emax).
Abbreviation fexp := (fexp prec emax).

Lemma fexp_ge_emin e : emin <= fexp e.
Proof. unfold SpecFloat.fexp. lia. Qed.

Lemma fexp_mono e1 e2 : e1 <= e2 -> fexp e1 <= fexp e2.
Proof. unfold SpecFloat.fexp. lia. Qed.

Lemma shr_fexp_exact m e :
  0 <= m -> e <= fexp (Zdigits2 m + e) ->
  exists mrs,
    shr_fexp prec emax m e loc_Exact = (mrs, fexp (Zdigits2 m + e)) /\
    shifted m (fexp (Zdigits2 m + e) - e) mrs.
Proof.
  intros Hm He. unfold shr_fexp, shr. cbn [shr_record_of_loc].
  destruct (fexp (Zdigits2 m + e) - e) as [|p|p] eqn:Hn; try lia.
  - exists (Build_shr_record m false false). split.
    + f_equal. lia.
    + split; cbn; [now rewrite Z.div_1_r | now rewrite Z.mod_1_r].
  - exists (iter_pos shr_1 p (Build_shr_record m false false)). split.
    + f_equal. lia.
    + now apply shifted_iter.
Qed.

Lemma shr_fexp_noshift m e :
  fexp (Zdigits2 m + e) <= e ->
  shr_fexp prec emax m e loc_Exact = (Build_shr_record m false false, e).
Proof.
  intros He. unfold shr_fexp, shr. cbn [shr_record_of_loc].
  destruct (fexp (Zdigits2 m + e) - e) as [|p|p] eqn:Hn; try reflexivity. lia.
Qed.

(** What rounding an exact positive mantissa produces: the mantissa is
    shifted down to the exponent of the format, moves up by at most one
    unit and only when bits were lost, and the result is brought back to a
    canonical mantissa. *)
Lemma binary_round_aux_spec s mz e E :
  E = fexp (Zpos (digits2_pos mz) + e) -> e <= E ->
  exists m1,
    (m1 = Zpos mz / 2 ^ (E - e) \/
     (Zpos mz mod 2 ^ (E - e) <> 0 /\ m1 = Zpos mz / 2 ^ (E - e) + 1)) /\
    (emin < E -> 2 ^ (prec - 1) <= m1) /\
    ((m1 = 0 /\ binary_round_aux prec emax s (Zpos mz) e loc_Exact = S754_zero s) \/
     exists m' e',
       E <= e' <= E + 1 /\ Zpos m' * 2 ^ (e' - E) = m1 /\
       canonical_mantissa prec emax m' e' = true /\
       binary_round_aux prec emax s (Zpos mz) e loc_Exact =
         if e' <=? emax - prec then S754_finite s m' e' else S754_infinity s).
Proof.
  intros HE He.
  destruct (shr_fexp_exact (Zpos mz) e ltac:(lia)) as (mrs & Hshr & Hq & Hr).
  { cbn [Zdigits2]. lia. }
  cbn [Zdigits2] in Hshr, Hq, Hr. rewrite <- HE in Hshr, Hq, Hr.
  remember (Zpos mz / 2 ^ (E - e)) as q eqn:Eq.
  unfold binary_round_aux. rewrite Hshr.
  pose proof (rne_spec mrs) as Hrne. cbv zeta in Hrne.
  remember (round_nearest_even (shr_m mrs) (loc_of_shr_record mrs)) as m1 eqn:Em1.
  exists m1.
  assert (Hm1 : m1 = q \/ (Zpos mz mod 2 ^ (E - e) <> 0 /\ m1 = q + 1)).
  { rewrite Hq in Hrne. destruct Hrne as [->|[Hi ->]]; [now left|right].
    split; [|reflexivity]. intros Hz. apply Hr in Hz. congruence. }
  clear Em1 Hrne.
  split; [exact Hm1|].
  pose proof (digits2_pos_bounds mz) as [Hdl Hdu].
  remember (Zpos (digits2_pos mz)) as d eqn:Ed.
  assert (HEmin : emin <= E) by (rewrite HE; apply fexp_ge_emin).
  assert (HEd : d + e - prec <= E) by (rewrite HE; unfold SpecFloat.fexp; lia).
  assert (Hn : 0 <= E - e) by lia.
  assert (H2n : 0 < 2 ^ (E - e)) by (apply Z.pow_pos_nonneg; lia).
  assert (Hq0 : 0 <= q) by (rewrite Eq; apply Z.div_pos; lia).
  assert (Hqlt : q < 2 ^ prec).
  { rewrite Eq. apply Z.div_lt_upper_bound; [lia|].
    rewrite <- Z.pow_add_r by lia.
    apply Z.lt_le_trans with (1 := Hdu). apply Z.pow_le_mono_r; lia. }
  assert (Hm1b : 0 <= m1 <= 2 ^ prec) by lia.
  assert (Hnormal : emin < E -> 2 ^ (prec - 1) <= q).
  { intros HEm. assert (HEeq : E = d + e - prec) by (unfold SpecFloat.fexp in *; lia).
    rewrite Eq. apply Z.div_le_lower_bound; [lia|].
    rewrite <- Z.pow_add_r by lia.
    replace (E - e + (prec - 1)) with (d - 1) by lia. exact Hdl. }
  split; [intros HEm; specialize (Hnormal HEm); lia|].
  destruct m1 as [|pm|pm]; try lia.
  - (* rounded to zero *)
    left. split; [reflexivity|].
    rewrite shr_fexp_noshift; [reflexivity|].
    cbn [Zdigits2]. unfold SpecFloat.fexp. lia.
  - right.
    destruct (Z.eq_dec (Zpos pm) (2 ^ prec)) as [Hover|Hnover].
    + (* the mantissa reached 2^prec: one more exact shift *)
      assert (Hd1 : Zpos (digits2_pos pm) = prec + 1).
      { apply digits2_pos_unique. rewrite Hover.
        replace (prec + 1 - 1) with prec by lia.
        rewrite Z.pow_add_r, Z.pow_1_r by lia. lia. }
      assert (Hf : fexp (prec + 1 + E) = E + 1) by (unfold SpecFloat.fexp; lia).
      destruct (shr_fexp_exact (Zpos pm) E ltac:(lia)) as (mrs2 & Hshr2 & Hq2 & _).
      { cbn [Zdigits2]. rewrite Hd1, Hf. lia. }
      cbn [Zdigits2] in Hshr2, Hq2. rewrite Hd1, Hf in Hshr2, Hq2.
      replace (E + 1 - E) with 1 in Hq2 by lia. rewrite Z.pow_1_r in Hq2.
      rewrite Hshr2, Hq2.
      assert (H2p : 2 ^ prec = 2 * 2 ^ (prec - 1)).
      { replace prec with ((prec - 1) + 1) at 1 by lia.
        rewrite Z.pow_add_r, Z.pow_1_r by lia. lia. }
      assert (Hpos : 0 < 2 ^ (prec - 1)) by (apply Z.pow_pos_nonneg; lia).
      assert (Hm' : exists m', Zpos m' = 2 ^ (prec - 1)).
      { destruct (2 ^ (prec - 1)) as [|m'|m']; try lia. now exists m'. }
      destruct Hm' as [m' Em'].
      assert (Hhalf : Zpos pm / 2 = Zpos m').
      { rewrite Hover, H2p, Em', Z.mul_comm. apply Z.div_mul. lia. }
      rewrite Hhalf.
      exists m', (E + 1). split; [lia|]. split.
      { replace (E + 1 - E) with 1 by lia. rewrite Z.pow_1_r. lia. }
      split; [|reflexivity].
      unfold canonical_mantissa. apply Z.eqb_eq.
      assert (Hd' : Zpos (digits2_pos m') = prec).
      { apply digits2_pos_unique. lia. }
      rewrite Hd'. unfold SpecFloat.fexp. lia.
    + (* no further shift *)
      assert (Hd1 : Zpos (digits2_pos pm) <= prec) by (apply digits_le_iff; lia).
      assert (Hcan : fexp (Zpos (digits2_pos pm) + E) = E).
      { destruct (Z.eq_dec E emin) as [HEm|HEm].
        - unfold SpecFloat.fexp. lia.
        - assert (HEeq : E = d + e - prec) by (unfold SpecFloat.fexp in *; lia).
          assert (prec <= Zpos (digits2_pos pm)); [|unfold SpecFloat.fexp; lia].
          destruct (Z_le_gt_dec prec (Zpos (digits2_pos pm))) as [|Hgt]; [assumption|exfalso].
          assert (Hlt : Zpos pm < 2 ^ (prec - 1)) by (apply digits_le_iff; lia).
          assert (2 ^ (prec - 1) <= q) by (apply Hnormal; lia). lia. }
      rewrite shr_fexp_noshift by (cbn [Zdigits2]; lia). cbn [shr_m].
      exists pm, E. split; [lia|]. split.
      { rewrite Z.sub_diag, Z.pow_0_r. lia. }
      split; [|reflexivity].
      unfold canonical_mantissa. now apply Z.eqb_eq.
Qed.

Lemma pow2_pos k : 0 <= k -> 0 < 2 ^ k.
Proof. intros. apply Z.pow_pos_nonneg; lia. Qed.

Lemma pow2_split a b c : c <= a -> a <= b -> 2 ^ (b - c) = 2 ^ (b - a) * 2 ^ (a - c).
Proof. intros. rewrite <- Z.pow_add_r by lia. f_equal. lia. Qed.

Lemma pos_iter_xO m d : Zpos (Pos.iter xO m d) = Zpos m * 2 ^ Zpos d.
Proof.
  induction d as [|d IH] using Pos.peano_ind.
  - cbn [Pos.iter]. rewrite Z.pow_1_r. lia.
  - rewrite Pos.iter_succ, Pos2Z.inj_succ, Z.pow_succ_r by lia.
    change (Zpos (Pos.iter xO m d)~0) with (2 * Zpos (Pos.iter xO m d)). rewrite IH. lia.
Qed.

Lemma shl_align_spec m e e' :
  let '(mz, ez) := shl_align m e e' in
  ez = Z.min e e' /\ Zpos mz = Zpos m * 2 ^ (e - ez).
Proof.
  unfold shl_align. destruct (e' - e) as [|d|d] eqn:Hd.
  - split; [lia|]. rewrite Z.sub_diag, Z.pow_0_r. lia.
  - split; [lia|]. rewrite Z.sub_diag, Z.pow_0_r. lia.
  - split; [lia|]. rewrite pos_iter_xO. do 2 f_equal. lia.
Qed.

Lemma digits2_pos_shift m mz k :
  0 <= k -> Zpos mz = Zpos m * 2 ^ k ->
  Zpos (digits2_pos mz) = Zpos (digits2_pos m) + k.
Proof.
  intros Hk Hmz. pose proof (digits2_pos_bounds m) as [Hl Hu].
  pose proof (pow2_pos k Hk).
  apply digits2_pos_unique. rewrite Hmz.
  replace (Zpos (digits2_pos m) + k - 1) with ((Zpos (digits2_pos m) - 1) + k) by lia.
  rewrite !Z.pow_add_r by lia. nia.
Qed.

Lemma compare_mul_r a b k : 0 < k -> (a * k ?= b * k) = (a ?= b).
Proof.
  intros Hk. destruct (Z.compare_spec a b) as [H|H|H];
    [apply Z.compare_eq_iff | apply Z.compare_lt_iff | apply Z.compare_gt_iff]; nia.
Qed.

Ltac compare_by_lia :=
  cbn [cond_Zopp]; f_equal; symmetry;
  first [ apply Z.compare_eq_iff; lia
        | apply Z.compare_lt_iff; lia
        | apply Z.compare_gt_iff; lia ].

Abbreviation canonical := (canonical_mantissa prec emax).

Lemma canonical_inv m e :
  canonical m e = true ->
  e = fexp (Zpos (digits2_pos m) + e) /\ emin <= e /\ Zpos m < 2 ^ prec.
Proof.
  unfold canonical_mantissa. intros H%Z.eqb_eq. split; [lia|]. split.
  - rewrite <- H. apply fexp_ge_emin.
  - apply digits_le_iff; [lia|]. unfold SpecFloat.fexp in H. lia.
Qed.

(** The position of the leading bit follows the magnitude. *)
Lemma digits_le_of_scaled m1 e1 m2 e2 :
  emin <= e1 -> emin <= e2 ->
  Zpos m1 * 2 ^ (e1 - emin) <= Zpos m2 * 2 ^ (e2 - emin) ->
  Zpos (digits2_pos m1) + e1 <= Zpos (digits2_pos m2) + e2.
Proof.
  intros H1 H2 Hle.
  pose proof (digits2_pos_bounds m1) as [Hl1 _].
  pose proof (digits2_pos_bounds m2) as [_ Hu2].
  pose proof (pow2_pos (e1 - emin) ltac:(lia)) as Hp1.
  pose proof (pow2_pos (e2 - emin) ltac:(lia)) as Hp2.
  assert (Hlt : 2 ^ (Zpos (digits2_pos m1) - 1 + (e1 - emin))
                < 2 ^ (Zpos (digits2_pos m2) + (e2 - emin))).
  { rewrite !Z.pow_add_r by lia. nia. }
  apply Z.pow_lt_mono_r_iff in Hlt; lia.
Qed.

Lemma canonical_exp_lt m1 e1 m2 e2 :
  canonical m1 e1 = true -> canonical m2 e2 = true -> e1 < e2 ->
  Zpos m1 * 2 ^ (e1 - emin) < Zpos m2 * 2 ^ (e2 - emin).
Proof.
  intros (Hc1 & He1 & Hm1)%canonical_inv (Hc2 & He2 & Hm2)%canonical_inv Hlt.
  destruct (Z_lt_le_dec (Zpos m1 * 2 ^ (e1 - emin)) (Zpos m2 * 2 ^ (e2 - emin)))
    as [|Hge]; [assumption|exfalso].
  apply digits_le_of_scaled in Hge; [|lia|lia].
  apply (fexp_mono) in Hge. lia.
Qed.

Lemma bounded_inv m e :
  bounded prec emax m e = true -> canonical m e = true /\ e <= emax - prec.
Proof. unfold bounded. intros [H1 H2%Z.leb_le]%andb_true_iff. now split. Qed.

Lemma bounded_scaled_lt m e :
  bounded prec emax m e = true -> 0 < Zpos m * 2 ^ (e - emin) < 2 ^ (emax - emin).
Proof.
  intros [(Hc & He & Hm)%canonical_inv Hb]%bounded_inv.
  pose proof (pow2_pos (e - emin) ltac:(lia)) as Hp. split; [lia|].
  apply Z.lt_le_trans with (2 ^ prec * 2 ^ (e - emin)); [nia|].
  rewrite <- Z.pow_add_r by lia. apply Z.pow_le_mono_r; lia.
Qed.

(** On valid numbers, [SFcompare] is the comparison of the scaled values. *)
Lemma SFcompare_scaled x y :
  valid_binary prec emax x = true -> valid_binary prec emax y = true ->
  x <> S754_nan -> y <> S754_nan ->
  SFcompare x y = Some (scaled prec emax x ?= scaled prec emax y).
Proof.
  intros Hx Hy Nx Ny.
  pose proof (pow2_pos (emax - emin) ltac:(unfold SpecFloat.emin; lia)) as Hinf.
  destruct x as [sx|sx| |sx mx ex], y as [sy|sy| |sy my ey]; try congruence;
    cbn [valid_binary] in Hx, Hy;
    try (apply bounded_scaled_lt in Hx as Hbx);
    try (apply bounded_scaled_lt in Hy as Hby);
    cbn [SFcompare scaled].
  - reflexivity.
  - destruct sy; compare_by_lia.
  - destruct sy; compare_by_lia.
  - destruct sx; compare_by_lia.
  - destruct sx, sy; compare_by_lia.
  - destruct sx, sy; compare_by_lia.
  - destruct sx; compare_by_lia.
  - destruct sx, sy; compare_by_lia.
  - apply bounded_inv in Hx as [Hcx _]. apply bounded_inv in Hy as [Hcy _].
    assert (Heq : ex = ey -> (Zpos mx * 2 ^ (ex - emin) ?= Zpos my * 2 ^ (ey - emin))
                            = Pos.compare_cont Eq mx my).
    { intros ->. pose proof (proj1 (canonical_inv _ _ Hcy)) as He.
      pose proof (fexp_ge_emin (Zpos (digits2_pos my) + ey)).
      rewrite compare_mul_r by (apply pow2_pos; lia). reflexivity. }
    destruct sx, sy; cbn [cond_Zopp]; f_equal.
    + rewrite Z.compare_opp.
      destruct (Z.compare_spec ex ey) as [He|He|He].
      * rewrite Z.compare_antisym, Heq by assumption. reflexivity.
      * symmetry. apply Z.compare_gt_iff. now apply canonical_exp_lt.
      * symmetry. apply Z.compare_lt_iff. now apply canonical_exp_lt.
    + symmetry. apply Z.compare_lt_iff. lia.
    + symmetry. apply Z.compare_gt_iff. lia.
    + destruct (Z.compare_spec ex ey) as [He|He|He].
      * now rewrite Heq.
      * symmetry. apply Z.compare_lt_iff. now apply canonical_exp_lt.
      * symmetry. apply Z.compare_gt_iff. now apply canonical_exp_lt.
Qed.

Lemma binary_round_aux_shape s mz e :
  e <= fexp (Zpos (digits2_pos mz) + e) ->
  rounded_shape prec emax s (binary_round_aux prec emax s (Zpos mz) e loc_Exact).
Proof.
  intros He.
  destruct (binary_round_aux_spec s mz e _ eq_refl He)
    as (m1 & _ & _ & [[_ ->] | (m' & e' & _ & _ & Hc & ->)]).
  - constructor.
  - destruct (e' <=? emax - prec) eqn:Hle; constructor.
    unfold bounded. now rewrite Hc, Hle.
Qed.

Lemma binary_round_aux_le s mz e mx ex :
  emin <= e -> e <= fexp (Zpos (digits2_pos mz) + e) ->
  bounded prec emax mx ex = true ->
  Zpos mz * 2 ^ (e - emin) <= Zpos mx * 2 ^ (ex - emin) ->
  binary_round_aux prec emax s (Zpos mz) e loc_Exact = S754_zero s \/
  exists m' e',
    binary_round_aux prec emax s (Zpos mz) e loc_Exact = S754_finite s m' e' /\
    bounded prec emax m' e' = true /\
    Zpos m' * 2 ^ (e' - emin) <= Zpos mx * 2 ^ (ex - emin).
Proof.
  intros Hemin He Hbx Hle.
  apply (bounded_inv) in Hbx as [Hcx Hex].
  pose proof (canonical_inv _ _ Hcx) as (Hfx & Heminx & _).
  remember (fexp (Zpos (digits2_pos mz) + e)) as E eqn:HE.
  assert (HEx : E <= ex).
  { rewrite HE, Hfx. apply fexp_mono.
    now apply (digits_le_of_scaled). }
  pose proof (pow2_pos (E - e) ltac:(lia)) as HP.
  pose proof (pow2_pos (e - emin) ltac:(lia)) as HS.
  pose proof (pow2_pos (ex - E) ltac:(lia)) as HK.
  pose proof (pow2_pos (E - emin) ltac:(lia)) as HEp.
  assert (HmzK : Zpos mz <= Zpos mx * 2 ^ (ex - E) * 2 ^ (E - e)).
  { rewrite (pow2_split E ex emin) in Hle by lia.
    rewrite (pow2_split e E emin) in Hle by lia. nia. }
  destruct (binary_round_aux_spec s mz e E HE He)
    as (m1 & Hm1 & _ & [[_ ->] | (m' & e' & HEe' & Hm' & Hc & ->)]); [now left|right].
  assert (Hm1K : m1 <= Zpos mx * 2 ^ (ex - E)).
  { pose proof (Z.div_mod (Zpos mz) (2 ^ (E - e)) ltac:(lia)) as Hdm.
    pose proof (Z.mod_pos_bound (Zpos mz) (2 ^ (E - e)) HP) as Hmb.
    destruct Hm1 as [-> | [Hnz ->]]; nia. }
  assert (Hval : Zpos m' * 2 ^ (e' - emin) <= Zpos mx * 2 ^ (ex - emin)).
  { pose proof (fexp_ge_emin (Zpos (digits2_pos mz) + e)).
    rewrite (pow2_split E e' emin) by lia.
    rewrite (pow2_split E ex emin) by lia. nia. }
  pose proof (canonical_inv _ _ Hc) as (Hf' & Hemin' & _).
  assert (He'x : e' <= ex).
  { rewrite Hf', Hfx. apply fexp_mono.
    now apply (digits_le_of_scaled). }
  exists m', e'.
  assert (Hleb : (e' <=? emax - prec) = true) by (apply Z.leb_le; lia).
  rewrite Hleb. split; [reflexivity|]. split; [|assumption].
  unfold bounded. now rewrite Hc, Hleb.
Qed.

Lemma binary_round_pre m e :
  let '(mz, ez) := shl_align m e (fexp (Zpos (digits2_pos m) + e)) in
  ez <= fexp (Zpos (digits2_pos mz) + ez) /\
  (emin <= e -> emin <= ez) /\
  ez <= e /\ Zpos mz = Zpos m * 2 ^ (e - ez).
Proof.
  pose proof (shl_align_spec m e (fexp (Zpos (digits2_pos m) + e))) as H.
  destruct (shl_align m e _) as [mz ez]. destruct H as [Hez Hmz].
  pose proof (fexp_ge_emin (Zpos (digits2_pos m) + e)).
  rewrite (digits2_pos_shift m mz (e - ez)) by (assumption || lia).
  replace (Zpos (digits2_pos m) + (e - ez) + ez) with (Zpos (digits2_pos m) + e) by lia.
  repeat split; try lia; assumption.
Qed.

Lemma binary_round_shape s m e :
  rounded_shape prec emax s (binary_round prec emax s m e).
Proof.
  unfold binary_round. pose proof (binary_round_pre m e) as H.
  destruct (shl_align m e _) as [mz ez]. destruct H as (H1 & _).
  now apply binary_round_aux_shape.
Qed.

Lemma binary_round_le s m e mx ex :
  emin <= e -> bounded prec emax mx ex = true ->
  Zpos m * 2 ^ (e - emin) <= Zpos mx * 2 ^ (ex - emin) ->
  binary_round prec emax s m e = S754_zero s \/
  exists m' e',
    binary_round prec emax s m e = S754_finite s m' e' /\
    bounded prec emax m' e' = true /\
    Zpos m' * 2 ^ (e' - emin) <= Zpos mx * 2 ^ (ex - emin).
Proof.
  intros Hemin Hbx Hle.
  unfold binary_round. pose proof (binary_round_pre m e) as H.
  destruct (shl_align m e _) as [mz ez]. destruct H as (H1 & H2 & H3 & H4).
  apply binary_round_aux_le; try assumption; [now apply H2|].
  rewrite H4, <- Z.mul_assoc, <- (pow2_split ez e emin) by (try apply H2; lia).
  assumption.
Qed.

Lemma binary_normalize_shape m e :
  exists s, rounded_shape prec emax s (binary_normalize prec emax m e false) /\
            (0 < m -> s = false) /\ (m < 0 -> s = true).
Proof.
  destruct m as [|m|m]; cbn [binary_normalize].
  - exists false. split; [constructor|]. lia.
  - exists false. split; [apply binary_round_shape|]. lia.
  - exists true. split; [apply binary_round_shape|]. lia.
Qed.
(** The rounded value, in units of [2^u], is less than one unit of the
    format away from the exact one. *)
Lemma binary_round_aux_near s mz e u :
  u <= e -> u <= emin -> e <= fexp (Zpos (digits2_pos mz) + e) ->
  exists R,
    Zpos mz * 2 ^ (e - u) - 2 ^ (fexp (Zpos (digits2_pos mz) + e) - u) < R
      < Zpos mz * 2 ^ (e - u) + 2 ^ (fexp (Zpos (digits2_pos mz) + e) - u) /\
    (emin < fexp (Zpos (digits2_pos mz) + e) ->
     2 ^ (prec - 1) * 2 ^ (fexp (Zpos (digits2_pos mz) + e) - u) <= R) /\
    ((R = 0 /\ binary_round_aux prec emax s (Zpos mz) e loc_Exact = S754_zero s) \/
     exists m' e',
       e' <= fexp (Zpos (digits2_pos mz) + e) + 1 /\
       R = Zpos m' * 2 ^ (e' - u) /\
       canonical_mantissa prec emax m' e' = true /\
       binary_round_aux prec emax s (Zpos mz) e loc_Exact =
         if e' <=? emax - prec then S754_finite s m' e' else S754_infinity s).
Proof.
  intros Hue Hu He.
  remember (fexp (Zpos (digits2_pos mz) + e)) as E eqn:HE.
  assert (HEmin : emin <= E) by (rewrite HE; apply fexp_ge_emin).
  destruct (binary_round_aux_spec s mz e E HE He)
    as (m1 & Hm1 & Hnormal & Hshape).
  pose proof (pow2_pos (E - e) ltac:(lia)) as HP.
  pose proof (pow2_pos (e - u) ltac:(lia)) as HS.
  pose proof (pow2_pos (E - u) ltac:(lia)) as HU.
  pose proof (Z.div_mod (Zpos mz) (2 ^ (E - e)) ltac:(lia)) as Hdm.
  pose proof (Z.mod_pos_bound (Zpos mz) (2 ^ (E - e)) HP) as Hmb.
  exists (m1 * 2 ^ (E - u)). split; [|split].
  - rewrite (pow2_split e E u) by lia. destruct Hm1 as [-> | [Hnz ->]]; nia.
  - intros HEm. specialize (Hnormal HEm). nia.
  - destruct Hshape as [[-> ->] | (m' & e' & HEe' & Hm' & Hc & ->)]; [left; split; [lia|reflexivity]|].
    right. exists m', e'. split; [lia|]. split; [|split; [exact Hc|reflexivity]].
    rewrite <- Hm', <- Z.mul_assoc, <- (pow2_split E e' u) by lia. reflexivity.
Qed.

Lemma binary_round_near s m e :
  emin <= e ->
  exists R,
    Zpos m * 2 ^ (e - emin) - 2 ^ (fexp (Zpos (digits2_pos m) + e) - emin) < R
      < Zpos m * 2 ^ (e - emin) + 2 ^ (fexp (Zpos (digits2_pos m) + e) - emin) /\
    ((R = 0 /\ binary_round prec emax s m e = S754_zero s) \/
     exists m' e',
       R = Zpos m' * 2 ^ (e' - emin) /\
       binary_round prec emax s m e =
         if e' <=? emax - prec then S754_finite s m' e' else S754_infinity s).
Proof.
  intros Hemin. unfold binary_round.
  pose proof (binary_round_pre m e) as H.
  destruct (shl_align m e _) as [mz ez]. destruct H as (H1 & H2 & H3 & H4).
  specialize (H2 Hemin).
  destruct (binary_round_aux_near s mz ez emin H2 ltac:(lia) H1)
    as (R & HR & _ & Hshape).
  assert (Hd : Zpos (digits2_pos mz) + ez = Zpos (digits2_pos m) + e).
  { rewrite (digits2_pos_shift m mz (e - ez)) by (assumption || lia). lia. }
  rewrite Hd in HR.
  assert (HV : Zpos mz * 2 ^ (ez - emin) = Zpos m * 2 ^ (e - emin)).
  { rewrite H4, <- Z.mul_assoc, <- (pow2_split ez e emin) by lia. reflexivity. }
  rewrite HV in HR.
  exists R. split; [exact HR|].
  destruct Hshape as [[-> ->] | (m' & e' & _ & -> & _ & ->)]; [now left|].
  right. now exists m', e'.
Qed.
End Rounding.

Ltac fsimp :=
  unfold clamp;
  cbn [F32.ltb F32.eqb F32.leb SFltb SFeqb SFleb SFcompare F32.zero
       nonneg_finite nonneg_valid scaled cond_Zopp negb xorb].

Lemma F32_prec_pos : 0 < F32.prec.
Proof. reflexivity. Qed.

Lemma F32_prec_lt_emax : F32.prec < F32.emax.
Proof. reflexivity. Qed.

(** ** binary32 products and differences *)


Lemma mul_c3_5_shape s m e :
  shape32 s (F32.mul (S754_finite s m e) F32.c3_5).
Proof.
  unfold F32.mul, F32.c3_5. cbn [SFmul]. rewrite xorb_false_r.
  apply binary_round_aux_shape; [exact F32_prec_pos|].
  pose proof (digits2_pos_bounds (m * 14680064)) as [_ Hu].
  assert (24 <= Zpos (digits2_pos (m * 14680064))).
  { destruct (Z_le_gt_dec 24 (Zpos (digits2_pos (m * 14680064)))) as [|Hgt]; [assumption|exfalso].
    assert (Zpos (m * 14680064) < 2 ^ 23) by (apply digits_le_iff; lia).
    rewrite Pos2Z.inj_mul in *. change (2 ^ 23) with 8388608 in *. lia. }
  unfold fexp, F32.prec. lia.
Qed.

Lemma mul_c3_5_nonneg dt :
  F32.leb F32.zero dt = true -> nonneg_valid (F32.mul dt F32.c3_5) = true.
Proof.
  destruct dt as [s|s| |s m e]; try (destruct s); try discriminate; intros _;
    try reflexivity.
  destruct (mul_c3_5_shape false m e) as [| |m' e' Hb]; try reflexivity.
  cbn [nonneg_valid]. assumption.
Qed.

Lemma mul_c3_5_not_nan dt :
  F32.is_nan dt = false -> F32.is_nan (F32.mul dt F32.c3_5) = false.
Proof.
  destruct dt as [s|s| |s m e]; try discriminate; intros _; try reflexivity.
  destruct (mul_c3_5_shape s m e); reflexivity.
Qed.

Lemma sub_finite_not_nan x y :
  F32.is_finite x = true -> F32.is_nan y = false -> F32.is_nan (F32.sub x y) = false.
Proof.
  destruct x as [sx|sx| |sx mx ex]; try discriminate;
    destruct y as [sy|sy| |sy my ey]; try discriminate; intros _ _;
    try reflexivity.
  - destruct sx, sy; reflexivity.
  - unfold F32.sub. cbn [SFsub].
    destruct (binary_normalize_shape F32.prec F32.emax F32_prec_pos
                (cond_Zopp sx (Zpos (fst (shl_align mx ex (Z.min ex ey)))) -
                 cond_Zopp sy (Zpos (fst (shl_align my ey (Z.min ex ey)))))
                (Z.min ex ey)) as (s & Hs & _).
    destruct Hs; reflexivity.
Qed.

Lemma shl_align_min_l mx ex ey :
  Zpos (fst (shl_align mx ex (Z.min ex ey))) = Zpos mx * 2 ^ (ex - Z.min ex ey).
Proof.
  pose proof (shl_align_spec mx ex (Z.min ex ey)) as H.
  destruct (shl_align mx ex _) as [mz ez]. cbn [fst]. destruct H as [-> ->].
  do 2 f_equal. lia.
Qed.

Lemma shl_align_min_r my ex ey :
  Zpos (fst (shl_align my ey (Z.min ex ey))) = Zpos my * 2 ^ (ey - Z.min ex ey).
Proof.
  pose proof (shl_align_spec my ey (Z.min ex ey)) as H.
  destruct (shl_align my ey _) as [mz ez]. cbn [fst]. destruct H as [-> ->].
  do 2 f_equal. lia.
Qed.

(** Subtracting a non-negative number from a positive one and clamping. *)
Lemma clamp_sub_le mx ex p :
  bounded F32.prec F32.emax mx ex = true -> nonneg_valid p = true ->
  let r := clamp (F32.sub (S754_finite false mx ex) p) in
  nonneg_finite r = true /\
  scaled32 r <= scaled32 (S754_finite false mx ex) /\
  (scaled32 (S754_finite false mx ex) <= scaled32 p -> F32.eqb r F32.zero = true).
Proof.
  intros Hbx Hp.
  pose proof (bounded_scaled_lt F32.prec F32.emax F32_prec_pos _ _ Hbx) as Hx.
  destruct p as [sp|[|]| |[|] my ey]; try discriminate; unfold F32.sub; cbn [SFsub].
  - (* p = 0 *) fsimp. split; [assumption|]. split; [lia|]. intros Hc. exfalso. lia.
  - (* p = +inf *) fsimp. repeat split; lia.
  - (* p finite *)
    rewrite shl_align_min_l, shl_align_min_r. cbn [cond_Zopp].
    cbn [nonneg_valid] in Hp.
    pose proof (bounded_scaled_lt F32.prec F32.emax F32_prec_pos _ _ Hp) as Hy.
    apply (bounded_inv F32.prec F32.emax) in Hp as [Hcy _].
    pose proof (canonical_inv F32.prec F32.emax F32_prec_pos _ _ Hcy) as (_ & Heminy & _).
    pose proof (bounded_inv F32.prec F32.emax _ _ Hbx) as [Hcx _].
    pose proof (canonical_inv F32.prec F32.emax F32_prec_pos _ _ Hcx) as (_ & Heminx & _).
    remember (Z.min ex ey) as ez eqn:Hez.
    assert (Hezmin : emin F32.prec F32.emax <= ez) by lia.
    pose proof (pow2_pos (ez - emin F32.prec F32.emax) ltac:(lia)) as Hpz.
    pose proof (pow2_pos (ex - ez) ltac:(lia)) as Hpx.
    pose proof (pow2_pos (ey - ez) ltac:(lia)) as Hpy.
    cbn [scaled cond_Zopp] in *.
    rewrite (pow2_split ez ex (emin F32.prec F32.emax)) in * by lia.
    rewrite (pow2_split ez ey (emin F32.prec F32.emax)) in * by lia.
    remember (Zpos mx * 2 ^ (ex - ez)) as X eqn:EX.
    remember (Zpos my * 2 ^ (ey - ez)) as Y eqn:EY.
    destruct (X - Y) as [|M|M] eqn:HM; cbn [binary_normalize].
    + fsimp. repeat split; lia.
    + destruct (binary_round_le F32.prec F32.emax F32_prec_pos false M ez mx ex Hezmin Hbx)
        as [-> | (m' & e' & -> & Hb' & Hle')].
      { rewrite (pow2_split ez ex (emin F32.prec F32.emax)) by lia. nia. }
      * fsimp. repeat split; lia.
      * rewrite (pow2_split ez ex (emin F32.prec F32.emax)) in Hle' by lia.
        fsimp.
        split; [assumption|]. split; [lia|]. intros Hc. exfalso. nia.
    + destruct (binary_round_shape F32.prec F32.emax F32_prec_pos true M ez);
        fsimp; repeat split; lia.
Qed.

Lemma digits_bound_upper mz e u k :
  u <= e -> Zpos mz * 2 ^ (e - u) < 2 ^ (k - u) -> Zpos (digits2_pos mz) + e <= k.
Proof.
  intros Hu Hlt. pose proof (digits2_pos_bounds mz) as [Hl _].
  pose proof (pow2_pos (e - u) ltac:(lia)) as HS.
  assert (Hpow : 2 ^ (Zpos (digits2_pos mz) - 1 + (e - u)) < 2 ^ (k - u)).
  { rewrite Z.pow_add_r by lia. nia. }
  destruct (Z_le_gt_dec (Zpos (digits2_pos mz) + e) k) as [|Hgt]; [assumption|exfalso].
  assert (2 ^ (k - u) <= 2 ^ (Zpos (digits2_pos mz) - 1 + (e - u)))
    by (apply Z.pow_le_mono_r; lia).
  lia.
Qed.

Lemma digits_bound_lower mz e u k :
  u <= e -> u <= k -> 2 ^ (k - u) <= Zpos mz * 2 ^ (e - u) -> k + 1 <= Zpos (digits2_pos mz) + e.
Proof.
  intros Hu Hk Hle. pose proof (digits2_pos_bounds mz) as [_ Hh].
  pose proof (pow2_pos (e - u) ltac:(lia)) as HS.
  assert (Hpow : 2 ^ (k - u) < 2 ^ (Zpos (digits2_pos mz) + (e - u))).
  { rewrite Z.pow_add_r by lia. nia. }
  apply Z.pow_lt_mono_r_iff in Hpow; lia.
Qed.

(** The rounded product [dt * 3.5f] against the exact one, for a finite
    [dt > 0]: within [2^-22] of it below 4, and at least 4 from 4 on. *)
Lemma mul_c3_5_near mx ex :
  bounded F32.prec F32.emax mx ex = true ->
  let sd := Zpos mx * 2 ^ (ex + 149) in
  let p := F32.mul (S754_finite false mx ex) F32.c3_5 in
  (7 * sd < 2 ^ 152 ->
   F32.is_finite p = true /\ 7 * sd - 2 ^ 128 < 2 * scaled32 p < 7 * sd + 2 ^ 128) /\
  (2 ^ 152 <= 7 * sd -> 2 ^ 151 <= scaled32 p).
Proof.
  intros Hb sd p.
  apply (bounded_inv F32.prec F32.emax) in Hb as [Hc _].
  pose proof (canonical_inv F32.prec F32.emax F32_prec_pos _ _ Hc) as (_ & Hemin & _).
  change (emin F32.prec F32.emax) with (-149) in Hemin.
  pose proof (pow2_pos (ex + 149) ltac:(lia)) as Hsd.
  assert (Hpre : ex + -22 <= fexp F32.prec F32.emax (Zpos (digits2_pos (mx * 14680064)) + (ex + -22))).
  { assert (24 <= Zpos (digits2_pos (mx * 14680064))).
    { destruct (Z_le_gt_dec 24 (Zpos (digits2_pos (mx * 14680064)))) as [|Hgt]; [assumption|exfalso].
      assert (Zpos (mx * 14680064) < 2 ^ 23) by (apply digits_le_iff; lia).
      rewrite Pos2Z.inj_mul in *. change (2 ^ 23) with 8388608 in *. lia. }
    unfold fexp, F32.prec. lia. }
  destruct (binary_round_aux_near F32.prec F32.emax F32_prec_pos false (mx * 14680064)
              (ex + -22) (-171) ltac:(lia) ltac:(cbv; discriminate) Hpre)
    as (R & HR & Hnormal & Hshape).
  assert (HV : Zpos (mx * 14680064) * 2 ^ (ex + -22 - -171) = 7 * 2 ^ 21 * sd).
  { unfold sd. replace (ex + -22 - -171) with (ex + 149) by lia.
    rewrite Pos2Z.inj_mul. change (2 ^ 21) with 2097152. lia. }
  rewrite HV in HR.
  remember (fexp F32.prec F32.emax (Zpos (digits2_pos (mx * 14680064)) + (ex + -22))) as E eqn:HE.
  assert (HEmin : -149 <= E) by (rewrite HE; apply (fexp_ge_emin F32.prec F32.emax)).
  assert (Hres : p = binary_round_aux F32.prec F32.emax false (Zpos (mx * 14680064)) (ex + -22) loc_Exact)
    by reflexivity.
  change (emin F32.prec F32.emax) with (-149) in Hnormal.
  change (2 ^ (F32.prec - 1)) with (2 ^ 23) in Hnormal.
  split.
  - intros Hsmall.
    assert (Hd : Zpos (digits2_pos (mx * 14680064)) + (ex + -22) <= 2).
    { apply (digits_bound_upper _ _ (-171)); [lia|]. rewrite HV.
      change (2 ^ (2 - -171)) with (2 ^ 21 * 2 ^ 152). nia. }
    assert (HE22 : E <= -22) by (rewrite HE; unfold fexp, F32.prec, SpecFloat.emin, F32.emax; lia).
    assert (HU : 2 ^ (E - -171) <= 2 ^ 149) by (apply Z.pow_le_mono_r; lia).
    destruct Hshape as [[HR0 Hp] | (m' & e' & He' & HRm & Hc' & Hp)]; rewrite <- Hres in Hp.
    + rewrite Hp. cbn [F32.is_finite scaled]. split; [reflexivity|].
      change (2 ^ 149) with (2 ^ 21 * 2 ^ 128) in HU. lia.
    + assert (Hfin : (e' <=? F32.emax - F32.prec) = true)
        by (apply Z.leb_le; cbv [F32.emax F32.prec]; lia).
      rewrite Hfin in Hp. rewrite Hp. cbn [F32.is_finite scaled cond_Zopp].
      split; [reflexivity|].
      change (emin F32.prec F32.emax) with (-149).
      pose proof (canonical_inv F32.prec F32.emax F32_prec_pos _ _ Hc') as (_ & He'min & _).
      change (emin F32.prec F32.emax) with (-149) in He'min.
      rewrite (pow2_split (-149) e' (-171)) in HRm by lia.
      change (2 ^ (-149 - -171)) with (2 * 2 ^ 21) in HRm.
      change (2 ^ 149) with (2 ^ 21 * 2 ^ 128) in HU.
      pose proof (pow2_pos 21 ltac:(lia)). nia.
  - intros Hbig.
    assert (Hd : 3 <= Zpos (digits2_pos (mx * 14680064)) + (ex + -22)).
    { apply (digits_bound_lower _ _ (-171) 2); [lia|lia|]. rewrite HV.
      change (2 ^ (2 - -171)) with (2 ^ 21 * 2 ^ 152). nia. }
    assert (HE21 : -21 <= E) by (rewrite HE; unfold fexp, F32.prec; lia).
    specialize (Hnormal ltac:(lia)).
    assert (HU : 2 ^ 150 <= 2 ^ (E - -171)) by (apply Z.pow_le_mono_r; lia).
    assert (HRbig : 2 ^ 173 <= R).
    { change (2 ^ 173) with (2 ^ 23 * 2 ^ 150). pose proof (pow2_pos 23 ltac:(lia)). nia. }
    destruct Hshape as [[HR0 Hp] | (m' & e' & He' & HRm & Hc' & Hp)]; rewrite <- Hres in Hp.
    + exfalso. pose proof (pow2_pos 173 ltac:(lia)). lia.
    + rewrite Hp. destruct (e' <=? F32.emax - F32.prec).
      * cbn [scaled cond_Zopp]. change (emin F32.prec F32.emax) with (-149).
        pose proof (canonical_inv F32.prec F32.emax F32_prec_pos _ _ Hc') as (_ & He'min & _).
        change (emin F32.prec F32.emax) with (-149) in He'min.
        rewrite (pow2_split (-149) e' (-171)) in HRm by lia.
        change (2 ^ (-149 - -171)) with (2 ^ 22) in HRm.
        change (2 ^ 173) with (2 ^ 151 * 2 ^ 22) in HRbig.
        pose proof (pow2_pos 22 ltac:(lia)). nia.
      * cbn [scaled cond_Zopp].
        apply Z.pow_le_mono_r; [lia | unfold SpecFloat.emin, F32.emax, F32.prec; lia].
Qed.

(** The clamped difference against the exact one, for a minuend below 4. *)
Lemma clamp_sub_near mx ex p :
  bounded F32.prec F32.emax mx ex = true -> nonneg_valid p = true ->
  scaled32 (S754_finite false mx ex) < 2 ^ 151 ->
  let b := S754_finite false mx ex in
  let r := clamp (F32.sub b p) in
  scaled32 b - scaled32 p - 2 ^ 127 < scaled32 r /\
  (F32.eqb r F32.zero = true \/ scaled32 r < scaled32 b - scaled32 p + 2 ^ 127).
Proof.
  intros Hbx Hp Hlt4.
  pose proof (bounded_scaled_lt F32.prec F32.emax F32_prec_pos _ _ Hbx) as Hx.
  pose proof (pow2_pos 127 ltac:(lia)) as H127.
  destruct p as [sp|[|]| |[|] my ey]; try discriminate; unfold F32.sub; cbn [SFsub].
  - (* p = 0 *) fsimp. split; [lia|right; lia].
  - (* p = +inf *) fsimp.
    assert (0 < 2 ^ (F32.emax - emin F32.prec F32.emax)) by (apply pow2_pos; cbv; discriminate).
    split; [lia|now left].
  - (* p finite *)
    rewrite shl_align_min_l, shl_align_min_r. cbn [cond_Zopp].
    cbn [nonneg_valid] in Hp.
    pose proof (bounded_scaled_lt F32.prec F32.emax F32_prec_pos _ _ Hp) as Hy.
    apply (bounded_inv F32.prec F32.emax) in Hp as [Hcy _].
    pose proof (canonical_inv F32.prec F32.emax F32_prec_pos _ _ Hcy) as (_ & Heminy & _).
    pose proof (bounded_inv F32.prec F32.emax _ _ Hbx) as [Hcx _].
    pose proof (canonical_inv F32.prec F32.emax F32_prec_pos _ _ Hcx) as (_ & Heminx & _).
    remember (Z.min ex ey) as ez eqn:Hez.
    assert (Hezmin : emin F32.prec F32.emax <= ez) by lia.
    pose proof (pow2_pos (ez - emin F32.prec F32.emax) ltac:(lia)) as Hpz.
    pose proof (pow2_pos (ex - ez) ltac:(lia)) as Hpx.
    pose proof (pow2_pos (ey - ez) ltac:(lia)) as Hpy.
    cbn [scaled cond_Zopp] in *.
    rewrite (pow2_split ez ex (emin F32.prec F32.emax)) in * by lia.
    rewrite (pow2_split ez ey (emin F32.prec F32.emax)) in * by lia.
    remember (Zpos mx * 2 ^ (ex - ez)) as X eqn:EX.
    remember (Zpos my * 2 ^ (ey - ez)) as Y eqn:EY.
    destruct (X - Y) as [|M|M] eqn:HM; cbn [binary_normalize].
    + fsimp. split; [nia|now left].
    + assert (HMle : Zpos M * 2 ^ (ez - emin F32.prec F32.emax)
                     <= Zpos mx * 2 ^ (ex - emin F32.prec F32.emax)).
      { rewrite (pow2_split ez ex (emin F32.prec F32.emax)) by lia. nia. }
      destruct (binary_round_near F32.prec F32.emax F32_prec_pos false M ez Hezmin)
        as (R & HR & HRshape).
      assert (HE : fexp F32.prec F32.emax (Zpos (digits2_pos M) + ez) <= -22).
      { assert (Zpos (digits2_pos M) + ez <= 2); [|unfold fexp, F32.prec, SpecFloat.emin, F32.emax; lia].
        apply (digits_bound_upper _ _ (emin F32.prec F32.emax)); [lia|].
        change (2 ^ (2 - emin F32.prec F32.emax)) with (2 ^ 151). nia. }
      assert (HU : 2 ^ (fexp F32.prec F32.emax (Zpos (digits2_pos M) + ez) - emin F32.prec F32.emax)
                   <= 2 ^ 127).
      { apply Z.pow_le_mono_r; [lia|]. change (emin F32.prec F32.emax) with (-149). lia. }
      assert (HV : Zpos M * 2 ^ (ez - emin F32.prec F32.emax)
                   = X * 2 ^ (ez - emin F32.prec F32.emax) - Y * 2 ^ (ez - emin F32.prec F32.emax))
        by nia.
      destruct (binary_round_le F32.prec F32.emax F32_prec_pos false M ez mx ex Hezmin Hbx HMle)
        as [Hz | (m' & e' & Hf & Hb' & Hle')].
      * rewrite Hz. fsimp.
        destruct HRshape as [[HR0 _] | (m'' & e'' & _ & Heq)].
        -- subst R. split; [lia|now left].
        -- rewrite Hz in Heq. destruct (e'' <=? _); discriminate.
      * rewrite Hf. fsimp.
        destruct HRshape as [[_ Heq] | (m'' & e'' & HRm & Heq)];
          rewrite Hf in Heq; [discriminate|].
        destruct (e'' <=? _); [|discriminate]. injection Heq as <- <-.
        subst R. split; [lia|right; lia].
    + destruct (binary_round_shape F32.prec F32.emax F32_prec_pos true M ez);
        fsimp; (split; [nia|now left]).
Qed.

(** ** The boost amount under [update] *)

Lemma exec_update dt p w :
  exec (update dt) (p, w) =
  if F32.ltb F32.zero (m_boost_amount p)
  then (set_m_boost_amount (clamp (F32.sub (m_boost_amount p) (F32.mul dt F32.c3_5))) p, w)
  else (p, w).
Proof.
  unfold exec, update, bind, this, when, modify_this, ret, clamp. cbn [fst snd].
  destruct (F32.ltb F32.zero (m_boost_amount p)); [|reflexivity].
  cbn [fst snd set_m_boost_amount m_boost_amount].
  destruct (F32.ltb (F32.sub (m_boost_amount p) (F32.mul dt F32.c3_5)) F32.zero); reflexivity.
Qed.

Lemma nonneg_finite_valid x :
  nonneg_finite x = true -> F32.valid x = true /\ x <> S754_nan.
Proof. destruct x as [s|s| |[|] m e]; try discriminate; cbn; intros H; split; congruence. Qed.

Lemma nonneg_valid_valid x :
  nonneg_valid x = true -> F32.valid x = true /\ x <> S754_nan.
Proof. destruct x as [s|[|]| |[|] m e]; try discriminate; cbn; intros H; split; congruence. Qed.

Lemma leb_scaled x y :
  F32.valid x = true -> F32.valid y = true -> x <> S754_nan -> y <> S754_nan ->
  F32.leb x y = true <-> scaled32 x <= scaled32 y.
Proof.
  intros Hx Hy Nx Ny. unfold F32.leb, SFleb.
  rewrite (SFcompare_scaled F32.prec F32.emax F32_prec_pos F32_prec_lt_emax x y Hx Hy Nx Ny).
  destruct (Z.compare_spec (scaled32 x) (scaled32 y));
    split; intros; (lia || congruence).
Qed.

(** One [update] with [dt >= 0] from a finite non-negative boost. *)
Lemma update_step dt p w :
  nonneg_finite (m_boost_amount p) = true ->
  F32.leb F32.zero dt = true ->
  let b' := boost (exec (update dt) (p, w)) in
  nonneg_finite b' = true /\ scaled32 b' <= scaled32 (m_boost_amount p).
Proof.
  intros Hb Hdt. rewrite exec_update. unfold boost.
  destruct (m_boost_amount p) as [s|s| |[|] m e] eqn:Eb; try discriminate.
  - change (F32.ltb F32.zero (S754_zero s)) with false. cbn [fst]. rewrite Eb.
    fsimp. split; [reflexivity|lia].
  - change (F32.ltb F32.zero (S754_finite false m e)) with true.
    cbn [fst set_m_boost_amount m_boost_amount].
    destruct (clamp_sub_le m e (F32.mul dt F32.c3_5) Hb (mul_c3_5_nonneg dt Hdt))
      as (H1 & H2 & _).
    now split.
Qed.

Lemma update_at_zero dt p w :
  F32.eqb (m_boost_amount p) F32.zero = true -> exec (update dt) (p, w) = (p, w).
Proof.
  intros Hz. rewrite exec_update.
  destruct (m_boost_amount p) as [s|[|]| |[|] m e]; try discriminate; reflexivity.
Qed.

Lemma run_updates_at_zero dts p w :
  F32.eqb (m_boost_amount p) F32.zero = true -> run (map OpUpdate dts) (p, w) = (p, w).
Proof.
  intros Hz. induction dts as [|dt dts IH]; [reflexivity|].
  cbn [map run fold_left call]. rewrite update_at_zero by assumption. exact IH.
Qed.

(** Updates with [dt >= 0] keep the boost finite, non-negative and below
    where it started. *)
Lemma run_updates_bound dts : forall p w,
  nonneg_finite (m_boost_amount p) = true ->
  forallb (F32.leb F32.zero) dts = true ->
  let b' := boost (run (map OpUpdate dts) (p, w)) in
  nonneg_finite b' = true /\ scaled32 b' <= scaled32 (m_boost_amount p).
Proof.
  induction dts as [|dt dts IH]; intros p w Hb Hdts.
  - split; [exact Hb|]. unfold boost. cbn [map run fold_left fst]. lia.
  - cbn [forallb] in Hdts. apply andb_true_iff in Hdts as [Hdt Hdts].
    destruct (update_step dt p w Hb Hdt) as (Hb1 & Hle1).
    change (run (map OpUpdate (dt :: dts)) (p, w))
      with (run (map OpUpdate dts) (exec (update dt) (p, w))).
    destruct (exec (update dt) (p, w)) as [p1 w1] eqn:E1.
    unfold boost in Hb1, Hle1. cbn [fst] in Hb1, Hle1.
    destruct (IH p1 w1 Hb1 Hdts) as (Hb2 & Hle2).
    split; [assumption|]. cbv zeta in Hle2 |- *. lia.
Qed.

Lemma eqb_zero_scaled x : F32.eqb x F32.zero = true -> scaled32 x = 0.
Proof. destruct x as [s|[|]| |[|] m e]; try discriminate; reflexivity. Qed.

(** One [update] by a finite [dt >= 0] from a boost below 4: the new boost
    is within [2^-21] of [boost - 3.5 dt], or it is 0. *)
Lemma update_step_rate dt p w :
  nonneg_finite (m_boost_amount p) = true ->
  scaled32 (m_boost_amount p) < 2 ^ 151 ->
  nonneg_finite dt = true ->
  let b' := boost (exec (update dt) (p, w)) in
  2 * scaled32 (m_boost_amount p) - 7 * scaled32 dt - 2 ^ 129 < 2 * scaled32 b' /\
  (F32.eqb b' F32.zero = true \/
   2 * scaled32 b' < 2 * scaled32 (m_boost_amount p) - 7 * scaled32 dt + 2 ^ 129).
Proof.
  intros Hb Hlt4 Hdt. rewrite exec_update. unfold boost. cbv zeta.
  pose proof (pow2_pos 129 ltac:(lia)) as H129.
  assert (Hsd : 0 <= scaled32 dt).
  { destruct dt as [s|s| |[|] m e]; try discriminate; cbn [scaled cond_Zopp].
    cbn [nonneg_finite] in Hdt.
    pose proof (bounded_scaled_lt F32.prec F32.emax F32_prec_pos _ _ Hdt). lia. }
  destruct (m_boost_amount p) as [s|s| |[|] m e] eqn:Eb; try discriminate.
  - change (F32.ltb F32.zero (S754_zero s)) with false. cbn [fst]. rewrite Eb.
    fsimp. split; [lia|now left].
  - change (F32.ltb F32.zero (S754_finite false m e)) with true.
    cbn [fst set_m_boost_amount m_boost_amount].
    cbn [nonneg_finite] in Hb.
    assert (Hleb : F32.leb F32.zero dt = true)
      by (destruct dt as [s|s| |[|] md ed]; try discriminate; reflexivity).
    pose proof (mul_c3_5_nonneg dt Hleb) as Hp.
    pose proof (clamp_sub_le m e _ Hb Hp) as (_ & _ & Hzero).
    pose proof (clamp_sub_near m e _ Hb Hp Hlt4) as (Hlo & Hhi).
    cbv zeta in Hzero, Hlo, Hhi.
    change (2 ^ 129) with (4 * 2 ^ 127) in *.
    destruct dt as [s|s| |[|] md ed]; try discriminate.
    + (* dt = 0 *)
      assert (Hp0 : scaled32 (F32.mul (S754_zero s) F32.c3_5) = 0) by reflexivity.
      rewrite Hp0 in *. cbn [scaled] in *. split; [lia|].
      destruct Hhi as [Hhi|Hhi]; [now left|right; lia].
    + (* dt > 0 *)
      cbn [nonneg_finite] in Hdt.
      pose proof (mul_c3_5_near md ed Hdt) as [Hsmall Hbig]. cbv zeta in Hsmall, Hbig.
      change (scaled32 (S754_finite false md ed)) with (Zpos md * 2 ^ (ed + 149)) in *.
      change (2 ^ 128) with (2 * 2 ^ 127) in *.
      destruct (Z_lt_le_dec (7 * (Zpos md * 2 ^ (ed + 149))) (2 ^ 152)) as [Hs|Hl].
      * destruct (Hsmall Hs) as [_ Hnear]. split; [lia|].
        destruct Hhi as [Hhi|Hhi]; [now left|right; lia].
      * specialize (Hbig Hl).
        assert (Hz : F32.eqb (clamp (F32.sub (S754_finite false m e)
                                       (F32.mul (S754_finite false md ed) F32.c3_5))) F32.zero = true).
        { apply Hzero. lia. }
        split; [|now left].
        rewrite (eqb_zero_scaled _ Hz). change (2 ^ 152) with (2 * 2 ^ 151) in Hl. lia.
Qed.

Lemma nonneg_finite_scaled x :
  nonneg_finite x = true -> 0 <= scaled32 x.
Proof.
  intros H. destruct x as [s|s| |[|] m e]; try discriminate H;
    cbn [scaled cond_Zopp nonneg_finite] in *; [lia|].
  pose proof (bounded_scaled_lt F32.prec F32.emax F32_prec_pos _ _ H). lia.
Qed.

Lemma nonneg_finite_zero x :
  nonneg_finite x = true -> scaled32 x <= 0 -> F32.eqb x F32.zero = true.
Proof.
  intros H. destruct x as [s|s| |[|] m e]; try discriminate H;
    cbn [scaled cond_Zopp nonneg_finite] in *; [reflexivity|].
  pose proof (bounded_scaled_lt F32.prec F32.emax F32_prec_pos _ _ H). lia.
Qed.

Lemma nonneg_finite_leb x :
  nonneg_finite x = true -> F32.leb F32.zero x = true.
Proof. destruct x as [s|s| |[|] m e]; try discriminate; reflexivity. Qed.

Lemma run_updates_rate dts : forall p w,
  nonneg_finite (m_boost_amount p) = true ->
  scaled32 (m_boost_amount p) < 2 ^ 151 ->
  forallb nonneg_finite dts = true ->
  let bN := boost (run (map OpUpdate dts) (p, w)) in
  let total := Zsum (map scaled32 dts) in
  let n := Z.of_nat (List.length dts) in
  2 * scaled32 (m_boost_amount p) - 7 * total - n * 2 ^ 129 <= 2 * scaled32 bN /\
  (F32.eqb bN F32.zero = true \/
   2 * scaled32 bN <= 2 * scaled32 (m_boost_amount p) - 7 * total + n * 2 ^ 129).
Proof.
  induction dts as [|dt dts IH]; intros p w Hb Hlt4 Hdts.
  - cbv zeta. unfold boost. cbn [map Zsum List.length run fold_left fst].
    change (Z.of_nat 0) with 0. split; [lia|right; lia].
  - cbn [forallb] in Hdts. apply andb_true_iff in Hdts as [Hdt Hdts].
    destruct (update_step dt p w Hb (nonneg_finite_leb dt Hdt)) as (Hb1 & Hle1).
    destruct (update_step_rate dt p w Hb Hlt4 Hdt) as (Hlo1 & Hhi1).
    change (run (map OpUpdate (dt :: dts)) (p, w))
      with (run (map OpUpdate dts) (exec (update dt) (p, w))).
    destruct (exec (update dt) (p, w)) as [p1 w1] eqn:E1.
    unfold boost in Hb1, Hle1, Hlo1, Hhi1. cbn [fst] in Hb1, Hle1, Hlo1, Hhi1.
    destruct (IH p1 w1 Hb1 ltac:(lia) Hdts) as (Hlo & Hhi).
    cbn [map Zsum List.length]. rewrite Nat2Z.inj_succ.
    cbv zeta in Hlo, Hhi |- *.
    remember (Zsum (map scaled32 dts)) as total eqn:Etotal.
    remember (Z.of_nat (List.length dts)) as n eqn:En.
    pose proof (pow2_pos 129 ltac:(lia)) as H129.
    split; [nia|].
    destruct Hhi1 as [Hz1|Hhi1].
    + left. rewrite run_updates_at_zero by exact Hz1. exact Hz1.
    + destruct Hhi as [Hz|Hhi]; [now left|right; nia].
Qed.

(** The exact value of a finite non-negative number, from its scaled value. *)
Lemma to_Q_scaled x :
  nonneg_finite x = true ->
  (F32.to_Q x == inject_Z (scaled32 x) * (1 # 2 ^ 149))%Q.
Proof.
  destruct x as [s|s| |[|] m e]; try discriminate.
  - intros _. reflexivity.
  - cbn [nonneg_finite]. intros [Hc _]%(bounded_inv F32.prec F32.emax).
    pose proof (canonical_inv F32.prec F32.emax F32_prec_pos _ _ Hc) as (_ & Hemin & _).
    change (emin F32.prec F32.emax) with (-149) in Hemin.
    cbn [F32.to_Q scaled cond_Zopp]. change (emin F32.prec F32.emax) with (-149).
    unfold Qeq, Qmult, inject_Z. cbn [Qnum Qden].
    rewrite Z.mul_1_r, Pos.mul_1_l.
    destruct e as [|pe|pe]; cbn [Qnum Qden].
    + change (0 - -149) with 149. rewrite Pos2Z.inj_pow. lia.
    + rewrite Pos2Z.inj_pow. replace (Zpos pe - -149) with (Zpos pe + 149) by lia.
      rewrite Z.pow_add_r by lia. lia.
    + rewrite !Pos2Z.inj_pow.
      replace (2 ^ 149) with (2 ^ (Zneg pe - -149) * 2 ^ Zpos pe).
      * lia.
      * rewrite <- Z.pow_add_r by lia. f_equal. lia.
Qed.

Lemma Qsum_scaled dts :
  forallb nonneg_finite dts = true ->
  (Qsum (map F32.to_Q dts) == inject_Z (Zsum (map scaled32 dts)) * (1 # 2 ^ 149))%Q.
Proof.
  induction dts as [|dt dts IH]; [reflexivity|].
  cbn [forallb]. intros [Hdt Hdts]%andb_true_iff.
  cbn [map Qsum fold_right Zsum]. fold (Qsum (map F32.to_Q dts)).
  rewrite (IH Hdts), (to_Q_scaled dt Hdt), inject_Z_plus. ring.
Qed.

Lemma scaled_c2_5_lt_4 b :
  nonneg_finite b = true -> F32.leb b F32.c2_5 = true ->
  scaled32 b < 2 ^ 151.
Proof.
  intros Hb Hle. destruct (nonneg_finite_valid b Hb) as [Hv Hn].
  apply (leb_scaled b F32.c2_5 Hv eq_refl Hn ltac:(discriminate)) in Hle.
  apply Z.le_lt_trans with (1 := Hle). reflexivity.
Qed.

(** The boost after a sequence of updates against the exact decay, in
    rational arithmetic. *)
Lemma run_updates_rate_Q dts p w :
  nonneg_finite (m_boost_amount p) = true ->
  F32.leb (m_boost_amount p) F32.c2_5 = true ->
  forallb nonneg_finite dts = true ->
  let bN := boost (run (map OpUpdate dts) (p, w)) in
  let decay := ((7 # 2) * Qsum (map F32.to_Q dts))%Q in
  let slack := (inject_Z (Z.of_nat (List.length dts)) * (1 # 2 ^ 21))%Q in
  (F32.to_Q (m_boost_amount p) - decay - slack <= F32.to_Q bN)%Q /\
  (F32.eqb bN F32.zero = true \/
   (F32.to_Q bN <= F32.to_Q (m_boost_amount p) - decay + slack)%Q) /\
  ((F32.to_Q (m_boost_amount p) + slack <= decay)%Q -> F32.eqb bN F32.zero = true).
Proof.
  intros Hb Hle Hdts bN decay slack.
  pose proof (scaled_c2_5_lt_4 _ Hb Hle) as Hlt4.
  assert (Hdts0 : forallb (F32.leb F32.zero) dts = true).
  { apply forallb_forall. intros dt Hin. apply nonneg_finite_leb.
    exact (proj1 (forallb_forall _ _) Hdts dt Hin). }
  destruct (run_updates_bound dts p w Hb Hdts0) as (HbN & _).
  fold bN in HbN.
  destruct (run_updates_rate dts p w Hb Hlt4 Hdts) as (Hlo & Hhi).
  fold bN in Hlo, Hhi. cbv zeta in Hlo, Hhi.
  pose proof (nonneg_finite_scaled bN HbN) as HbN0.
  assert (Hzero : 2 * scaled32 (m_boost_amount p)
                  + Z.of_nat (List.length dts) * 2 ^ 129 <= 7 * Zsum (map scaled32 dts) ->
                  F32.eqb bN F32.zero = true).
  { intros H. destruct Hhi as [Hz|Hhi]; [exact Hz|].
    apply nonneg_finite_zero; [exact HbN|lia]. }
  unfold decay, slack.
  rewrite (to_Q_scaled _ Hb), (to_Q_scaled _ HbN), (Qsum_scaled _ Hdts).
  remember (scaled32 (m_boost_amount p)) as sb0.
  remember (scaled32 bN) as sbN.
  remember (Zsum (map scaled32 dts)) as total.
  remember (Z.of_nat (List.length dts)) as n.
  change (2 ^ 129) with 680564733841876926926749214863536422912 in *.
  change (2 ^ 149)%positive with 713623846352979940529142984724747568191373312%positive.
  change (2 ^ 21)%positive with 2097152%positive.
  split; [|split].
  - assert (H : 2 * sb0 <= 2 * sbN + 7 * total + n * 680564733841876926926749214863536422912)
      by lia.
    rewrite Zle_Qle, !inject_Z_plus, !inject_Z_mult in H.
    change (inject_Z 2) with 2%Q in H. change (inject_Z 7) with 7%Q in H.
    change (inject_Z 680564733841876926926749214863536422912)
      with 680564733841876926926749214863536422912%Q in H.
    lra.
  - destruct Hhi as [Hz|Hhi]; [now left|right].
    assert (H : 2 * sbN + 7 * total <= 2 * sb0 + n * 680564733841876926926749214863536422912)
      by lia.
    rewrite Zle_Qle, !inject_Z_plus, !inject_Z_mult in H.
    change (inject_Z 2) with 2%Q in H. change (inject_Z 7) with 7%Q in H.
    change (inject_Z 680564733841876926926749214863536422912)
      with 680564733841876926926749214863536422912%Q in H.
    lra.
  - intros H. apply Hzero.
    assert (H' : (inject_Z (2 * sb0 + n * 680564733841876926926749214863536422912)
                  <= inject_Z (7 * total))%Q).
    { rewrite !inject_Z_plus, !inject_Z_mult.
      change (inject_Z 2) with 2%Q. change (inject_Z 7) with 7%Q.
      change (inject_Z 680564733841876926926749214863536422912)
        with 680564733841876926926749214863536422912%Q.
      lra. }
    now rewrite <- Zle_Qle in H'.
Qed.

(** ** The guard of the per-frame calls *)

Ltac step_m :=
  unfold exec, shut, beginCapture, endCapture, render, giveBoost, OnSetConstants,
         services, driver, Log_warn, and_then, bind, this, world, modify_this,
         modify_world, when, ret;
  cbn [fst snd].

(** C1: when the feature is unsupported, disabled, or more than one player
    is active, [beginCapture], [endCapture] and [render] leave the object and
    the world as they were: no call reaches the driver and no member changes. *)
Theorem skipped_calls_do_nothing (p : PostProcessing) (w : World) :
  m_supported p = false \/ m_postprocess_enabled w = false \/ (1 < getNumPlayers w)%N ->
  exec beginCapture (p, w) = (p, w) /\
  exec endCapture (p, w) = (p, w) /\
  exec render (p, w) = (p, w).
Proof.
  intros H.
  assert (Hs : skipped p w = true).
  { unfold skipped. destruct H as [-> | [-> | H%N.ltb_lt]].
    - reflexivity.
    - now rewrite orb_true_r.
    - rewrite H. now rewrite orb_true_r. }
  step_m. rewrite Hs. repeat split.
Qed.

Lemma skipped_calls_do_nothing_witness :
  exec beginCapture (Sample.unsupported, Sample.single_player)
    = (Sample.unsupported, Sample.single_player) /\
  exec endCapture (Sample.unsupported, Sample.single_player)
    = (Sample.unsupported, Sample.single_player) /\
  exec render (Sample.unsupported, Sample.single_player)
    = (Sample.unsupported, Sample.single_player).
Proof.
  apply (skipped_calls_do_nothing Sample.unsupported Sample.single_player).
  left. reflexivity.
Defined.

Lemma not_skipped p w :
  m_supported p = true -> m_postprocess_enabled w = true -> (getNumPlayers w <= 1)%N ->
  skipped p w = false.
Proof.
  unfold skipped. intros -> -> H. cbn [negb orb]. apply N.ltb_ge. exact H.
Qed.

Lemma gt_zero_not_le b : F32.ltb F32.zero b = true -> F32.leb b F32.zero = false.
Proof. destruct b as [s|[|]| |[|] m e]; try discriminate; reflexivity. Qed.

(** C5: with the feature supported and enabled and at most one player,
    [beginCapture] clears [m_used_pp_this_frame] and leaves the driver alone
    when [m_boost_amount <= 0]; when [m_boost_amount > 0] it sets the flag and
    makes [m_render_target] the driver's render target.  [endCapture] restores
    the frame buffer exactly when the flag is set. *)
Theorem capture_redirects_when_boosted (p : PostProcessing) (w : World) :
  m_supported p = true -> m_postprocess_enabled w = true -> (getNumPlayers w <= 1)%N ->
  (F32.leb (m_boost_amount p) F32.zero = true ->
   exec beginCapture (p, w) = (set_m_used_pp_this_frame false p, w)) /\
  (F32.ltb F32.zero (m_boost_amount p) = true ->
   exec beginCapture (p, w) =
     (set_m_used_pp_this_frame true p,
      log_driver_call (SetRenderTargetTexture (m_render_target p) true true) w)) /\
  exec endCapture (p, w) =
    (p, if m_used_pp_this_frame p
        then log_driver_call (SetRenderTarget ERT_FRAME_BUFFER true true 0) w
        else w).
Proof.
  intros Hs He Hn. pose proof (not_skipped p w Hs He Hn) as Hk.
  repeat split.
  - intros Hle. step_m. now rewrite Hk, Hle.
  - intros Hgt%gt_zero_not_le. step_m. now rewrite Hk, Hgt.
  - step_m. rewrite Hk. now destruct (m_used_pp_this_frame p).
Qed.

Lemma capture_redirects_when_boosted_witness :
  driver_calls (snd (exec endCapture (exec beginCapture (Sample.boosted, Sample.single_player))))
  = [SetRenderTargetTexture (Some 5%positive) true true;
     SetRenderTarget ERT_FRAME_BUFFER true true 0].
Proof.
  destruct (capture_redirects_when_boosted Sample.boosted Sample.single_player
              eq_refl eq_refl ltac:(vm_compute; discriminate)) as (_ & Hb & _).
  rewrite (Hb eq_refl).
  destruct (capture_redirects_when_boosted
              (set_m_used_pp_this_frame true Sample.boosted)
              (log_driver_call (SetRenderTargetTexture (m_render_target Sample.boosted) true true)
                 Sample.single_player)
              eq_refl eq_refl ltac:(vm_compute; discriminate)) as (_ & _ & He).
  rewrite He. reflexivity.
Defined.

(** C6: [OnSetConstants] passes the current [m_boost_amount] as the one
    float of the uniform "boost_amount", then texture unit 0 as the uniform
    "color_buffer", and changes nothing else, whatever the state. *)
Theorem OnSetConstants_passes_boost (p : PostProcessing) (w : World) (user_data : Z) :
  exec (OnSetConstants user_data) (p, w) =
    (p, log_services_call (SetPixelShaderConstantInt "color_buffer" [0] 1)
          (log_services_call (SetPixelShaderConstantFloat "boost_amount" [m_boost_amount p] 1) w)) /\
  services_calls (snd (exec (OnSetConstants user_data) (p, w))) =
    services_calls w ++
    [SetPixelShaderConstantFloat "boost_amount" [m_boost_amount p] 1;
     SetPixelShaderConstantInt "color_buffer" [0] 1].
Proof.
  split; [reflexivity|]. step_m. cbn [log_services_call services_calls].
  now rewrite <- app_assoc.
Qed.

(** C9: [giveBoost] stores exactly 2.5 whatever the previous amount was, so
    a boost given after any sequence of calls, during a decay for one,
    restarts at 2.5 and does not accumulate; giving it twice is the same as
    giving it once. *)
Theorem giveBoost_resets (p : PostProcessing) (w : World) (ops : list Op) :
  exec giveBoost (p, w) = (set_m_boost_amount F32.c2_5 p, w) /\
  F32.valid F32.c2_5 = true /\
  (F32.to_Q F32.c2_5 == 5 # 2)%Q /\
  boost (exec giveBoost (run ops (exec giveBoost (p, w)))) = F32.c2_5 /\
  exec giveBoost (exec giveBoost (p, w)) = exec giveBoost (p, w).
Proof. repeat split. Qed.

(** ** Initialisation *)

Ltac init_m :=
  cbv beta iota zeta delta
    [exec init and_then driver Log_warn bind this world modify_this modify_world
     when ret fst snd].

Ltac settle_init :=
  cbv beta iota zeta delta
    [negb fst snd log_driver_call log_warning set_m_postprocess_enabled set_m_supported
     set_m_render_target set_m_material m_postprocess_enabled getNumPlayers driver_calls
     services_calls warnings m_supported m_used_pp_this_frame m_boost_amount
     m_render_target m_material];
  rewrite <- ?app_assoc; cbn [app]; rewrite ?app_nil_r; reflexivity.

(** The outcome of [init] on hardware lacking one of the three capabilities. *)
Lemma exec_init_incapable eng p w :
  capable eng = false ->
  exists queries,
    forallb is_query queries = true /\
    exec (init eng) (p, w) =
      (set_m_supported false p,
       {| m_postprocess_enabled := m_postprocess_enabled w;
          getNumPlayers := getNumPlayers w;
          driver_calls := driver_calls w ++ queries;
          services_calls := services_calls w;
          warnings := warnings w ++ texture_warnings eng |}).
Proof.
  unfold capable, texture_warnings. intros Hc.
  exists ([QueryFeature EVDF_ARB_GLSL] ++
          (if queryFeature eng EVDF_ARB_GLSL
           then [QueryFeature EVDF_PIXEL_SHADER_2_0] ++
                (if queryFeature eng EVDF_PIXEL_SHADER_2_0
                 then [QueryFeature EVDF_RENDER_TO_TARGET] else [])
           else []) ++
          [QueryFeature EVDF_TEXTURE_NSQUARE; QueryFeature EVDF_TEXTURE_NPOT]).
  init_m.
  destruct (queryFeature eng EVDF_ARB_GLSL) eqn:H1;
    [destruct (queryFeature eng EVDF_PIXEL_SHADER_2_0) eqn:H2;
       [destruct (queryFeature eng EVDF_RENDER_TO_TARGET) eqn:H3; [discriminate|] |] |];
    destruct (queryFeature eng EVDF_TEXTURE_NSQUARE), (queryFeature eng EVDF_TEXTURE_NPOT);
    (split; [reflexivity|]); settle_init.
Qed.

(** The outcome of [init] on capable hardware. *)
Lemma exec_init_capable eng p w :
  capable eng = true ->
  let nonpower := queryFeature eng EVDF_TEXTURE_NPOT in
  let nonsquare := queryFeature eng EVDF_TEXTURE_NSQUARE in
  let opt := getOptimalSize eng (getScreenSize eng) (negb nonpower) (negb nonsquare) in
  let target := addRenderTargetTexture eng opt "postprocess" in
  let vert := (getShaderDir eng ++ "motion_blur.vert")%string in
  let frag := (getShaderDir eng ++ "motion_blur.frag")%string in
  exec (init eng) (p, w) =
    ({| m_supported := true;
        m_used_pp_this_frame := m_used_pp_this_frame p;
        m_boost_amount := m_boost_amount p;
        m_render_target := target;
        m_material :=
          {| MaterialType := addHighLevelShaderMaterialFromFiles eng vert frag;
             Texture0 := target; Wireframe := false; Lighting := false;
             ZWriteEnable := false |} |},
     {| m_postprocess_enabled :=
          match target with None => false | Some _ => m_postprocess_enabled w end;
        getNumPlayers := getNumPlayers w;
        driver_calls := driver_calls w ++
          [QueryFeature EVDF_ARB_GLSL; QueryFeature EVDF_PIXEL_SHADER_2_0;
           QueryFeature EVDF_RENDER_TO_TARGET; QueryFeature EVDF_TEXTURE_NSQUARE;
           QueryFeature EVDF_TEXTURE_NPOT; GetScreenSize;
           AddRenderTargetTexture opt "postprocess"; GetGPUProgrammingServices;
           AddHighLevelShaderMaterialFromFiles vert "main" EVST_VS_2_0
             frag "main" EPST_PS_2_0 EMT_SOLID];
        services_calls := services_calls w;
        warnings := warnings w ++ texture_warnings eng ++
          match target with
          | None => [("PostProcessing",
                      "Couldn't create the render target for post-processing, disabling it.")%string]
          | Some _ => []
          end |}).
Proof.
  unfold capable, texture_warnings.
  intros [[H1 H2]%andb_true_iff H3]%andb_true_iff. init_m.
  rewrite H1, H2, H3.
  destruct (queryFeature eng EVDF_TEXTURE_NSQUARE), (queryFeature eng EVDF_TEXTURE_NPOT);
    cbv beta iota zeta delta [negb];
    destruct (addRenderTargetTexture eng _ "postprocess"); settle_init.
Qed.

Lemma capable_true eng :
  queryFeature eng EVDF_ARB_GLSL = true ->
  queryFeature eng EVDF_PIXEL_SHADER_2_0 = true ->
  queryFeature eng EVDF_RENDER_TO_TARGET = true ->
  capable eng = true.
Proof. unfold capable. now intros -> -> ->. Qed.

Lemma capable_false eng :
  queryFeature eng EVDF_ARB_GLSL = false \/
  queryFeature eng EVDF_PIXEL_SHADER_2_0 = false \/
  queryFeature eng EVDF_RENDER_TO_TARGET = false ->
  capable eng = false.
Proof.
  unfold capable. intros [-> | [-> | ->]];
    rewrite ?andb_false_r, ?andb_false_l; reflexivity.
Qed.

(** C3: on supporting hardware, when the allocation of the render target
    returns null, [init] logs the warning that it could not be created and
    sets the user configuration flag of post-processing to false. *)
Theorem init_disables_without_render_target (eng : Engine) (p : PostProcessing) (w : World) :
  queryFeature eng EVDF_ARB_GLSL = true ->
  queryFeature eng EVDF_PIXEL_SHADER_2_0 = true ->
  queryFeature eng EVDF_RENDER_TO_TARGET = true ->
  addRenderTargetTexture eng
    (getOptimalSize eng (getScreenSize eng)
       (negb (queryFeature eng EVDF_TEXTURE_NPOT))
       (negb (queryFeature eng EVDF_TEXTURE_NSQUARE))) "postprocess" = None ->
  m_supported (fst (exec (init eng) (p, w))) = true /\
  m_postprocess_enabled (snd (exec (init eng) (p, w))) = false /\
  warnings (snd (exec (init eng) (p, w))) =
    warnings w ++ texture_warnings eng ++
    [("PostProcessing",
      "Couldn't create the render target for post-processing, disabling it.")%string].
Proof.
  intros H1 H2 H3 Hnull.
  rewrite (exec_init_capable eng p w (capable_true eng H1 H2 H3)).
  cbn [fst snd m_supported m_postprocess_enabled warnings].
  rewrite Hnull. repeat split.
Qed.

Lemma init_disables_without_render_target_witness :
  m_postprocess_enabled
    (snd (exec (init (Sample.engine true true true true true None))
               (Sample.object, Sample.single_player))) = false.
Proof.
  apply (init_disables_without_render_target
           (Sample.engine true true true true true None)
           Sample.object Sample.single_player); reflexivity.
Defined.

(** C4, as the code has it: when one of the three capabilities is missing,
    [init] leaves [m_supported] false and every other member as it was, asks
    the driver nothing but feature queries (no render target, no shader), and
    logs only the warnings about texture dimensions: one when textures must
    have power-of-two sizes, one when they must be square, none otherwise. *)
Theorem init_without_capability (eng : Engine) (p : PostProcessing) (w : World) :
  queryFeature eng EVDF_ARB_GLSL = false \/
  queryFeature eng EVDF_PIXEL_SHADER_2_0 = false \/
  queryFeature eng EVDF_RENDER_TO_TARGET = false ->
  fst (exec (init eng) (p, w)) = set_m_supported false p /\
  m_postprocess_enabled (snd (exec (init eng) (p, w))) = m_postprocess_enabled w /\
  (exists queries,
     forallb is_query queries = true /\
     driver_calls (snd (exec (init eng) (p, w))) = driver_calls w ++ queries) /\
  warnings (snd (exec (init eng) (p, w))) = warnings w ++ texture_warnings eng.
Proof.
  intros H. destruct (exec_init_incapable eng p w (capable_false eng H)) as (qs & Hqs & ->).
  cbn [fst snd m_postprocess_enabled driver_calls warnings].
  repeat split. now exists qs.
Qed.

Lemma init_without_capability_witness :
  fst (exec (init (Sample.engine true false true true false (Some 5%positive)))
            (Sample.object, Sample.single_player)) = Sample.unsupported /\
  warnings (snd (exec (init (Sample.engine true false true true false (Some 5%positive)))
                      (Sample.object, Sample.single_player))) =
    [("PostProcessing", "Only power of two textures are supported.")%string].
Proof.
  destruct (init_without_capability
              (Sample.engine true false true true false (Some 5%positive))
              Sample.object Sample.single_player) as (H1 & _ & _ & H2).
  - right. left. reflexivity.
  - split; [exact H1 | exact H2].
Defined.

(** C4 as stated fails: with GLSL missing and both texture features present,
    [init] disables the feature and logs nothing. *)
Lemma init_without_capability_logs_nothing :
  queryFeature (Sample.engine false true true true true (Some 5%positive)) EVDF_ARB_GLSL = false /\
  m_supported (fst (exec (init (Sample.engine false true true true true (Some 5%positive)))
                         (Sample.object, Sample.single_player))) = false /\
  warnings (snd (exec (init (Sample.engine false true true true true (Some 5%positive)))
                      (Sample.object, Sample.single_player))) = [].
Proof. repeat split. Qed.

Lemma queries_load_nothing qs :
  forallb is_query qs = true -> flat_map shader_files qs = [].
Proof.
  induction qs as [|c qs IH]; [reflexivity|].
  cbn [forallb flat_map]. intros [Hc Hqs]%andb_true_iff.
  destruct c; try discriminate. cbn [shader_files app]. now apply IH.
Qed.

(** C7: [init] reads two shader files when the hardware is supported, the
    vertex shader [motion_blur.vert] and the fragment shader
    [motion_blur.frag] of the shader directory, and none otherwise. *)
Theorem init_loads_the_two_shaders (eng : Engine) (p : PostProcessing) (w : World) :
  m_supported (fst (exec (init eng) (p, w))) = capable eng /\
  flat_map shader_files (driver_calls (snd (exec (init eng) (p, w)))) =
    flat_map shader_files (driver_calls w) ++
    (if capable eng
     then [(getShaderDir eng ++ "motion_blur.vert")%string;
           (getShaderDir eng ++ "motion_blur.frag")%string]
     else []).
Proof.
  destruct (capable eng) eqn:Hc.
  - rewrite (exec_init_capable eng p w Hc).
    cbn [fst snd m_supported driver_calls]. split; [reflexivity|].
    rewrite flat_map_app. reflexivity.
  - destruct (exec_init_incapable eng p w Hc) as (qs & Hqs & ->).
    cbn [fst snd set_m_supported m_supported driver_calls]. split; [reflexivity|].
    rewrite flat_map_app, (queries_load_nothing qs Hqs). reflexivity.
Qed.

(** ** Nothing re-enables the feature *)

Lemma call_keeps_flags op st :
  is_init op = false ->
  m_supported (fst (exec (call op) st)) = m_supported (fst st) /\
  m_postprocess_enabled (snd (exec (call op) st)) = m_postprocess_enabled (snd st).
Proof.
  destruct st as [p w]. destruct op; try discriminate; intros _; cbn [call].
  - step_m. destruct (negb (m_supported p)); split; reflexivity.
  - step_m. destruct (skipped p w); [split; reflexivity|].
    destruct (F32.leb (m_boost_amount p) F32.zero); split; reflexivity.
  - step_m. destruct (skipped p w); [split; reflexivity|].
    destruct (m_used_pp_this_frame p); split; reflexivity.
  - rewrite exec_update. destruct (F32.ltb F32.zero (m_boost_amount p)); split; reflexivity.
  - step_m. destruct (skipped p w); [split; reflexivity|].
    destruct (negb (m_used_pp_this_frame p)); split; reflexivity.
  - split; reflexivity.
  - split; reflexivity.
Qed.

Lemma call_keeps_disabled op st :
  m_postprocess_enabled (snd st) = false ->
  m_postprocess_enabled (snd (exec (call op) st)) = false.
Proof.
  intros Hoff. destruct (is_init op) eqn:Hop.
  - destruct op; try discriminate. destruct st as [p w]. cbn [call snd] in *.
    destruct (capable video_driver) eqn:Hc.
    + rewrite (exec_init_capable _ p w Hc). cbn [snd m_postprocess_enabled].
      now destruct (addRenderTargetTexture _ _ _).
    + destruct (exec_init_incapable _ p w Hc) as (qs & _ & ->). exact Hoff.
  - destruct (call_keeps_flags op st Hop) as [_ ->]. exact Hoff.
Qed.

Lemma run_keeps_disabled ops : forall st,
  m_postprocess_enabled (snd st) = false ->
  m_postprocess_enabled (snd (run ops st)) = false.
Proof.
  induction ops as [|op ops IH]; intros st Hoff; [exact Hoff|].
  change (run (op :: ops) st) with (run ops (exec (call op) st)).
  apply IH. now apply call_keeps_disabled.
Qed.

Lemma run_keeps_flags ops : forall st,
  forallb (fun op => negb (is_init op)) ops = true ->
  m_supported (fst (run ops st)) = m_supported (fst st) /\
  m_postprocess_enabled (snd (run ops st)) = m_postprocess_enabled (snd st).
Proof.
  induction ops as [|op ops IH]; intros st Hops; [split; reflexivity|].
  cbn [forallb] in Hops. apply andb_true_iff in Hops as [Hop%negb_true_iff Hops].
  change (run (op :: ops) st) with (run ops (exec (call op) st)).
  destruct (IH (exec (call op) st) Hops) as [-> ->].
  now apply call_keeps_flags.
Qed.

(** C8: no call other than [init] changes [m_supported], and no sequence of
    calls at all turns the configuration flag from false to true; so once the
    feature is off, it is off after every sequence of [shut], [beginCapture],
    [endCapture], [update], [render], [giveBoost] and [OnSetConstants]. *)
Theorem disabling_is_permanent (ops any_ops : list Op) (st : State) :
  forallb (fun op => negb (is_init op)) ops = true ->
  m_supported (fst (run ops st)) = m_supported (fst st) /\
  m_postprocess_enabled (snd (run ops st)) = m_postprocess_enabled (snd st) /\
  (feature_on st = false -> feature_on (run ops st) = false) /\
  (m_postprocess_enabled (snd st) = false ->
   m_postprocess_enabled (snd (run any_ops st)) = false).
Proof.
  intros Hops. destruct (run_keeps_flags ops st Hops) as [Hs He].
  split; [exact Hs|]. split; [exact He|]. split.
  - unfold feature_on. now rewrite Hs, He.
  - apply run_keeps_disabled.
Qed.

Lemma disabling_is_permanent_witness :
  feature_on
    (run [OpGiveBoost; OpBeginCapture; OpEndCapture; OpRender; OpUpdate Sample.half;
          OpOnSetConstants 0; OpShut]
         (Sample.unsupported, Sample.single_player)) = false.
Proof.
  destruct (disabling_is_permanent
              [OpGiveBoost; OpBeginCapture; OpEndCapture; OpRender; OpUpdate Sample.half;
               OpOnSetConstants 0; OpShut]
              [] (Sample.unsupported, Sample.single_player) eq_refl) as (_ & _ & H & _).
  apply H. reflexivity.
Defined.

(** ** The decay of the boost *)

Lemma boost_exec_update dt p w :
  boost (exec (update dt) (p, w)) =
  if F32.ltb F32.zero (m_boost_amount p)
  then clamp (F32.sub (m_boost_amount p) (F32.mul dt F32.c3_5))
  else m_boost_amount p.
Proof.
  rewrite exec_update. now destruct (F32.ltb F32.zero (m_boost_amount p)).
Qed.

(** C2, as binary32 arithmetic has it.  From a finite boost between 0 and
    2.5 and under updates with finite [dt >= 0]: the boost never increases
    and stays finite and non-negative; after [n] updates it differs from
    [m_boost_amount - 3.5 * (dt_1 + ... + dt_n)] by at most [n * 2^-21]
    unless it has reached 0; it is exactly 0 as soon as the [dt] sum to at
    least [(m_boost_amount + n * 2^-21) / 3.5]; and once 0 it is left alone
    by every further update. *)
Theorem boost_decays_to_zero (dts any_dts : list F32.float32) (p : PostProcessing) (w : World) :
  nonneg_finite (m_boost_amount p) = true ->
  F32.leb (m_boost_amount p) F32.c2_5 = true ->
  forallb nonneg_finite dts = true ->
  let bN := boost (run (map OpUpdate dts) (p, w)) in
  let decay := ((7 # 2) * Qsum (map F32.to_Q dts))%Q in
  let slack := (inject_Z (Z.of_nat (List.length dts)) * (1 # 2 ^ 21))%Q in
  F32.leb bN (m_boost_amount p) = true /\
  nonneg_finite bN = true /\
  (F32.to_Q (m_boost_amount p) - decay - slack <= F32.to_Q bN)%Q /\
  (F32.eqb bN F32.zero = true \/
   (F32.to_Q bN <= F32.to_Q (m_boost_amount p) - decay + slack)%Q) /\
  ((F32.to_Q (m_boost_amount p) + slack <= decay)%Q -> F32.eqb bN F32.zero = true) /\
  (F32.eqb bN F32.zero = true ->
   run (map OpUpdate any_dts) (run (map OpUpdate dts) (p, w)) = run (map OpUpdate dts) (p, w)).
Proof.
  intros Hb Hle Hdts bN decay slack.
  assert (Hdts0 : forallb (F32.leb F32.zero) dts = true).
  { apply forallb_forall. intros dt Hin. apply nonneg_finite_leb.
    exact (proj1 (forallb_forall _ _) Hdts dt Hin). }
  destruct (run_updates_bound dts p w Hb Hdts0) as (HbN & HleN).
  destruct (nonneg_finite_valid _ Hb) as [Hv Hn].
  destruct (nonneg_finite_valid _ HbN) as [HvN HnN].
  destruct (run_updates_rate_Q dts p w Hb Hle Hdts) as (Hlo & Hhi & Hzero).
  split; [now apply leb_scaled|]. split; [exact HbN|].
  split; [exact Hlo|]. split; [exact Hhi|]. split; [exact Hzero|].
  unfold bN. destruct (run (map OpUpdate dts) (p, w)) as [p' w']. unfold boost. cbn [fst].
  apply run_updates_at_zero.
Qed.

Lemma boost_decays_to_zero_witness :
  F32.eqb (boost (run (map OpUpdate (repeat Sample.dt_frame 43))
                      (Sample.boosted, Sample.single_player))) F32.zero = true.
Proof.
  destruct (boost_decays_to_zero (repeat Sample.dt_frame 43) []
              Sample.boosted Sample.single_player eq_refl eq_refl eq_refl)
    as (_ & _ & _ & _ & H & _).
  apply H. vm_compute. discriminate.
Defined.

(** C2 as stated fails in binary32.  After one update of a boost of 2.5 by a
    frame time of 1/60 s the boost is still positive, but it has not dropped
    by [dt * 3.5], nor by the rounded product [dt * 3.5f].  And an update by
    [dt = 2^-25 > 0] leaves a boost of 2.5 where it is, so that [2^25] such
    updates, one second in all and more than [2.5 / 3.5], do not bring it
    to 0. *)
Lemma boost_decay_is_not_exact :
  (F32.ltb F32.zero (boost (exec (update Sample.dt_frame)
                                 (Sample.boosted, Sample.single_player))) = true /\
   ~ (F32.to_Q F32.c2_5 -
      F32.to_Q (boost (exec (update Sample.dt_frame) (Sample.boosted, Sample.single_player)))
      == F32.to_Q Sample.dt_frame * F32.to_Q F32.c3_5)%Q /\
   ~ (F32.to_Q F32.c2_5 -
      F32.to_Q (boost (exec (update Sample.dt_frame) (Sample.boosted, Sample.single_player)))
      == F32.to_Q (F32.mul Sample.dt_frame F32.c3_5))%Q) /\
  (F32.ltb F32.zero Sample.dt_tiny = true /\
   boost (exec (update Sample.dt_tiny) (Sample.boosted, Sample.single_player)) = F32.c2_5) /\
  ((F32.to_Q F32.c2_5 / F32.to_Q F32.c3_5
    <= inject_Z (Z.of_N 33554432) * F32.to_Q Sample.dt_tiny)%Q /\
   boost (N.iter 33554432 (exec (update Sample.dt_tiny)) (Sample.boosted, Sample.single_player))
     = F32.c2_5 /\
   F32.eqb F32.c2_5 F32.zero = false).
Proof.
  split; [repeat split; vm_compute; discriminate|].
  split; [split; reflexivity|].
  split; [vm_compute; discriminate|]. split; [|reflexivity].
  apply N.iter_invariant.
  - intros st Hst. destruct st as [p' w']. rewrite boost_exec_update.
    unfold boost in Hst. cbn [fst] in Hst. rewrite Hst. reflexivity.
  - reflexivity.
Qed.

(** ** The sign of the boost *)

Lemma boost_exec_call op st :
  boost (exec (call op) st) =
  match op with
  | OpUpdate dt =>
      if F32.ltb F32.zero (boost st)
      then clamp (F32.sub (boost st) (F32.mul dt F32.c3_5))
      else boost st
  | OpGiveBoost => F32.c2_5
  | _ => boost st
  end.
Proof.
  destruct st as [p w]. destruct op; cbn [call].
  - unfold boost. destruct (capable video_driver) eqn:Hc.
    + now rewrite (exec_init_capable _ p w Hc).
    + now destruct (exec_init_incapable _ p w Hc) as (qs & _ & ->).
  - unfold boost. step_m. now destruct (negb (m_supported p)).
  - unfold boost. step_m. destruct (skipped p w); [reflexivity|].
    now destruct (F32.leb (m_boost_amount p) F32.zero).
  - unfold boost. step_m. destruct (skipped p w); [reflexivity|].
    now destruct (m_used_pp_this_frame p).
  - apply boost_exec_update.
  - unfold boost. step_m. destruct (skipped p w); [reflexivity|].
    now destruct (negb (m_used_pp_this_frame p)).
  - reflexivity.
  - reflexivity.
Qed.

Lemma clamp_not_negative r : F32.ltb (clamp r) F32.zero = false.
Proof. unfold clamp. destruct (F32.ltb r F32.zero) eqn:E; [reflexivity | exact E]. Qed.

Lemma clamp_not_nan r : F32.is_nan r = false -> F32.is_nan (clamp r) = false.
Proof. unfold clamp. now destruct (F32.ltb r F32.zero). Qed.

Lemma not_negative_ge_zero x :
  F32.ltb x F32.zero = false -> F32.is_nan x = false -> F32.leb F32.zero x = true.
Proof. destruct x as [s|[|]| |[|] m e]; try discriminate; reflexivity. Qed.

Lemma finite_not_nan x : F32.is_finite x = true -> F32.is_nan x = false.
Proof. now destruct x. Qed.

(** C10, as binary32 arithmetic has it.  The constructor stores 0, and no
    call ever leaves a negative [m_boost_amount], for any [dt]: the boost is
    [>= 0] whenever it is not NaN.  It is not NaN, hence [>= 0], after a call
    made with a finite boost and a [dt] that is not NaN. *)
Theorem boost_is_never_negative (op : Op) (st : State) (uninitialised : PostProcessing) :
  F32.ltb (boost st) F32.zero = false ->
  m_boost_amount (PostProcessing_new uninitialised) = F32.zero /\
  F32.ltb (boost (exec (call op) st)) F32.zero = false /\
  (F32.is_nan (boost (exec (call op) st)) = false ->
   F32.leb F32.zero (boost (exec (call op) st)) = true) /\
  (F32.is_finite (boost st) = true -> op_dt_is_nan op = false ->
   F32.leb F32.zero (boost (exec (call op) st)) = true).
Proof.
  intros Hneg. split; [reflexivity|].
  assert (Hneg' : F32.ltb (boost (exec (call op) st)) F32.zero = false).
  { rewrite boost_exec_call. destruct op; try exact Hneg; [|reflexivity].
    destruct (F32.ltb F32.zero (boost st)); [apply clamp_not_negative | exact Hneg]. }
  split; [exact Hneg'|]. split; [now apply not_negative_ge_zero|].
  intros Hfin Hdt. apply not_negative_ge_zero; [exact Hneg'|].
  rewrite boost_exec_call. destruct op; try (now apply finite_not_nan).
  destruct (F32.ltb F32.zero (boost st)); [|now apply finite_not_nan].
  apply clamp_not_nan, sub_finite_not_nan; [exact Hfin|].
  apply mul_c3_5_not_nan. exact Hdt.
Qed.

Lemma boost_is_never_negative_witness :
  F32.leb F32.zero
    (boost (exec (call (OpUpdate F32.minus_one)) (Sample.boosted, Sample.single_player))) = true.
Proof.
  destruct (boost_is_never_negative (OpUpdate F32.minus_one)
              (Sample.boosted, Sample.single_player) Sample.object eq_refl)
    as (_ & _ & _ & H).
  apply H; reflexivity.
Defined.

(** C10 as stated fails in binary32: after [giveBoost] and an update by
    [-FLT_MAX] the boost is plus infinity, which is [>= 0]; an update by
    [FLT_MAX], a finite [dt], then makes it NaN, which is not. *)
Lemma boost_nonneg_not_preserved :
  F32.is_finite Sample.max_float = true /\
  F32.leb F32.zero
    (boost (run [OpGiveBoost; OpUpdate (SFopp Sample.max_float)]
                (Sample.object, Sample.single_player))) = true /\
  F32.leb F32.zero
    (boost (exec (update Sample.max_float)
              (run [OpGiveBoost; OpUpdate (SFopp Sample.max_float)]
                   (Sample.object, Sample.single_player)))) = false.
Proof. repeat split. Qed.

(** * Further properties of the code *)

(** ** The per-frame calls *)

Lemma exec_beginCapture p w :
  exec beginCapture (p, w) =
  if skipped p w then (p, w)
  else if F32.leb (m_boost_amount p) F32.zero then (set_m_used_pp_this_frame false p, w)
  else (set_m_used_pp_this_frame true p,
        log_driver_call (SetRenderTargetTexture (m_render_target p) true true) w).
Proof.
  step_m. destruct (skipped p w); [reflexivity|].
  now destruct (F32.leb (m_boost_amount p) F32.zero).
Qed.

Lemma exec_endCapture p w :
  exec endCapture (p, w) =
  (p, if negb (skipped p w) && m_used_pp_this_frame p
      then log_driver_call (SetRenderTarget ERT_FRAME_BUFFER true true 0) w
      else w).
Proof.
  step_m. destruct (skipped p w); [reflexivity|].
  now destruct (m_used_pp_this_frame p).
Qed.

(** The draw call of [render], the same in every state. *)
Lemma exec_render :
  exists d,
    is_quad_draw d = true /\ draw_in_bounds d = true /\ uses_null_texture d = false /\
    forall p w,
      exec render (p, w) =
      (p, if negb (skipped p w) && m_used_pp_this_frame p
          then log_driver_call d (log_driver_call (SetMaterial (m_material p)) w)
          else w).
Proof.
  eexists. split; [|split; [|split]]; cycle 3.
  - intros p w. step_m. destruct (skipped p w); [reflexivity|].
    destruct (m_used_pp_this_frame p); reflexivity.
  - reflexivity.
  - reflexivity.
  - reflexivity.
Qed.

(** X1: [render] never changes the object.  It reaches the driver only past
    the guard and when the scene was captured, and then with two calls: the
    material of the object, and one indexed triangle list of 4 vertices and
    2 triangles whose 6 indices all address one of the 4 vertices given. *)
Theorem render_draws_one_quad_in_bounds (p : PostProcessing) (w : World) :
  exists d,
    is_quad_draw d = true /\ draw_in_bounds d = true /\
    fst (exec render (p, w)) = p /\
    driver_calls (snd (exec render (p, w))) =
      driver_calls w ++
      (if negb (skipped p w) && m_used_pp_this_frame p
       then [SetMaterial (m_material p); d] else []).
Proof.
  destruct exec_render as (d & Hq & Hb & _ & Hr). exists d.
  split; [exact Hq|]. split; [exact Hb|]. rewrite Hr. split; [reflexivity|].
  cbn [snd]. destruct (negb (skipped p w) && m_used_pp_this_frame p).
  - cbn [log_driver_call driver_calls]. now rewrite <- app_assoc.
  - now rewrite app_nil_r.
Qed.

(** ** A whole frame *)

Lemma run_cons op ops st : run (op :: ops) st = run ops (exec (call op) st).
Proof. reflexivity. Qed.

Lemma run_app ops1 ops2 st : run (ops1 ++ ops2) st = run ops2 (run ops1 st).
Proof. apply fold_left_app. Qed.

(** A quiet call changes at most the boost and the record of the
    shader-constant calls. *)
Lemma quiet_call op p w :
  is_quiet op = true ->
  exists b sc, exec (call op) (p, w) = (set_m_boost_amount b p, set_services_calls sc w).
Proof.
  assert (Hp : p = set_m_boost_amount (m_boost_amount p) p) by now destruct p.
  assert (Hw : w = set_services_calls (services_calls w) w) by now destruct w.
  destruct op; try discriminate; intros _; cbn [call].
  - exists (m_boost_amount p), (services_calls w). rewrite <- Hp, <- Hw.
    step_m. now destruct (negb (m_supported p)).
  - rewrite exec_update. destruct (F32.ltb F32.zero (m_boost_amount p)).
    + eexists _, (services_calls w). now rewrite <- Hw.
    + exists (m_boost_amount p), (services_calls w). now rewrite <- Hp, <- Hw.
  - exists F32.c2_5, (services_calls w). now rewrite <- Hw.
  - exists (m_boost_amount p). eexists. rewrite Hp at 1. reflexivity.
Qed.

Lemma quiet_run ops : forall p w,
  forallb is_quiet ops = true ->
  exists b sc, run ops (p, w) = (set_m_boost_amount b p, set_services_calls sc w).
Proof.
  induction ops as [|op ops IH]; intros p w Hops.
  - exists (m_boost_amount p), (services_calls w). now destruct p, w.
  - cbn [forallb] in Hops. apply andb_true_iff in Hops as [Hop Hops].
    rewrite run_cons. destruct (quiet_call op p w Hop) as (b1 & sc1 & ->).
    destruct (IH (set_m_boost_amount b1 p) (set_services_calls sc1 w) Hops)
      as (b & sc & ->).
    now exists b, sc.
Qed.

(** X2: a frame is [beginCapture], then [endCapture], then [render], with
    any calls of [update], [giveBoost], [shut] and [OnSetConstants] in
    between.  Whether it is post-processed is decided by [beginCapture]
    alone: past the guard and unless [m_boost_amount <= 0] at that moment,
    the driver sees exactly the redirection into [m_render_target], the
    return to the frame buffer, the material and the quad; otherwise it sees
    nothing.  A boost given or used up later in the frame, and what
    [m_used_pp_this_frame] held before, play no part. *)
Theorem frame_is_decided_at_beginCapture
    (mid1 mid2 : list Op) (p : PostProcessing) (w : World) :
  forallb is_quiet mid1 = true -> forallb is_quiet mid2 = true ->
  let frame := OpBeginCapture :: mid1 ++ OpEndCapture :: mid2 ++ [OpRender] in
  exists d,
    is_quad_draw d = true /\
    m_used_pp_this_frame (fst (run frame (p, w))) =
      (if skipped p w then m_used_pp_this_frame p else captures p w) /\
    driver_calls (snd (run frame (p, w))) =
      driver_calls w ++
      (if captures p w
       then [SetRenderTargetTexture (m_render_target p) true true;
             SetRenderTarget ERT_FRAME_BUFFER true true 0;
             SetMaterial (m_material p); d]
       else []).
Proof.
  intros H1 H2 frame. unfold frame.
  destruct exec_render as (d & Hq & _ & _ & Hr). exists d. split; [exact Hq|].
  rewrite run_cons, run_app, run_cons, run_app, run_cons.
  change (run [] ?st) with st.
  rewrite exec_beginCapture. unfold captures.
  destruct (skipped p w) eqn:Hs.
  - destruct (quiet_run mid1 p w H1) as (b1 & sc1 & ->).
    rewrite exec_endCapture.
    change (skipped (set_m_boost_amount b1 p) (set_services_calls sc1 w)) with (skipped p w).
    rewrite Hs. cbn [negb andb].
    match goal with |- context [run mid2 (?a, ?c)] =>
        destruct (quiet_run mid2 a c H2) as (b2 & sc2 & ->) end.
    rewrite Hr.
    change (skipped _ _) with (skipped p w).
    rewrite Hs. cbn [negb andb fst snd]. split; [reflexivity|].
    cbn [set_services_calls driver_calls]. now rewrite app_nil_r.
  - cbn [negb andb].
    destruct (F32.leb (m_boost_amount p) F32.zero) eqn:Hle; cbn [negb].
    + match goal with |- context [run mid1 (?a, ?c)] =>
        destruct (quiet_run mid1 a c H1) as (b1 & sc1 & ->) end.
      rewrite exec_endCapture.
      cbn [m_used_pp_this_frame set_m_used_pp_this_frame set_m_boost_amount].
      rewrite andb_false_r.
      match goal with |- context [run mid2 (?a, ?c)] =>
        destruct (quiet_run mid2 a c H2) as (b2 & sc2 & ->) end.
      rewrite Hr.
      cbn [m_used_pp_this_frame set_m_used_pp_this_frame set_m_boost_amount].
      rewrite andb_false_r. cbn [fst snd]. split; [reflexivity|].
      cbn [set_services_calls driver_calls]. now rewrite app_nil_r.
    + match goal with |- context [run mid1 (?a, ?c)] =>
        destruct (quiet_run mid1 a c H1) as (b1 & sc1 & ->) end.
      rewrite exec_endCapture.
      change (skipped _ _) with (skipped p w). rewrite Hs.
      cbn [negb andb m_used_pp_this_frame set_m_used_pp_this_frame set_m_boost_amount].
      match goal with |- context [run mid2 (?a, ?c)] =>
        destruct (quiet_run mid2 a c H2) as (b2 & sc2 & ->) end.
      rewrite Hr.
      change (skipped _ _) with (skipped p w). rewrite Hs.
      cbn [negb andb fst snd m_used_pp_this_frame set_m_used_pp_this_frame
           set_m_boost_amount m_material m_render_target log_driver_call
           set_services_calls driver_calls].
      split; [reflexivity | now rewrite <- !app_assoc].
Qed.

Lemma frame_is_decided_at_beginCapture_witness :
  List.length
    (driver_calls
       (snd (run (OpBeginCapture :: [OpUpdate F32.one] ++ OpEndCapture :: [OpShut] ++ [OpRender])
                 (Sample.boosted, Sample.single_player)))) = 4%nat.
Proof.
  destruct (frame_is_decided_at_beginCapture [OpUpdate F32.one] [OpShut]
              Sample.boosted Sample.single_player eq_refl eq_refl)
    as (d & _ & _ & H).
  rewrite H. reflexivity.
Defined.

(** ** What only [init] writes *)

Lemma call_keeps_resources op st :
  is_init op = false ->
  m_render_target (fst (exec (call op) st)) = m_render_target (fst st) /\
  m_material (fst (exec (call op) st)) = m_material (fst st) /\
  getNumPlayers (snd (exec (call op) st)) = getNumPlayers (snd st) /\
  warnings (snd (exec (call op) st)) = warnings (snd st).
Proof.
  destruct exec_render as (d & _ & _ & _ & Hr).
  destruct st as [p w]. destruct op; try discriminate; intros _; cbn [call].
  - step_m. destruct (negb (m_supported p)); repeat split.
  - rewrite exec_beginCapture. destruct (skipped p w); [repeat split|].
    destruct (F32.leb (m_boost_amount p) F32.zero); repeat split.
  - rewrite exec_endCapture.
    destruct (negb (skipped p w) && m_used_pp_this_frame p); repeat split.
  - rewrite exec_update. destruct (F32.ltb F32.zero (m_boost_amount p)); repeat split.
  - rewrite Hr. destruct (negb (skipped p w) && m_used_pp_this_frame p); repeat split.
  - repeat split.
  - repeat split.
Qed.

Lemma call_keeps_skipped op st :
  is_init op = false ->
  skipped (fst (exec (call op) st)) (snd (exec (call op) st)) = skipped (fst st) (snd st).
Proof.
  intros Hop. unfold skipped.
  destruct (call_keeps_flags op st Hop) as [-> ->].
  destruct (call_keeps_resources op st Hop) as (_ & _ & -> & _). reflexivity.
Qed.

Lemma call_silent op st :
  is_init op = false ->
  skipped (fst st) (snd st) = true \/ is_frame_call op = false ->
  driver_calls (snd (exec (call op) st)) = driver_calls (snd st).
Proof.
  destruct exec_render as (d & _ & _ & _ & Hr).
  destruct st as [p w]. cbn [fst snd].
  destruct op; try discriminate; intros _ H; cbn [call].
  - step_m. now destruct (negb (m_supported p)).
  - destruct H as [H|H]; [|discriminate]. now rewrite exec_beginCapture, H.
  - destruct H as [H|H]; [|discriminate]. now rewrite exec_endCapture, H.
  - rewrite exec_update. now destruct (F32.ltb F32.zero (m_boost_amount p)).
  - destruct H as [H|H]; [|discriminate]. now rewrite Hr, H.
  - reflexivity.
  - reflexivity.
Qed.

(** X3: while the feature is unsupported or disabled or several players are
    active, and in any state as long as none of [beginCapture], [endCapture]
    and [render] is called, no sequence of calls other than [init] reaches
    the video driver or logs a warning. *)
Theorem calls_leave_driver_alone (ops : list Op) (p : PostProcessing) (w : World) :
  forallb (fun op => negb (is_init op)) ops = true ->
  skipped p w = true \/ forallb (fun op => negb (is_frame_call op)) ops = true ->
  driver_calls (snd (run ops (p, w))) = driver_calls w /\
  warnings (snd (run ops (p, w))) = warnings w.
Proof.
  change w with (snd (p, w)) at 1 3 5. change p with (fst (p, w)) at 1.
  generalize (p, w). clear p w.
  induction ops as [|op ops IH]; intros st Hops H; [split; reflexivity|].
  cbn [forallb] in Hops. apply andb_true_iff in Hops as [Hop%negb_true_iff Hops].
  change (run (op :: ops) st) with (run ops (exec (call op) st)).
  destruct (IH (exec (call op) st) Hops) as [-> ->].
  - rewrite (call_keeps_skipped op st Hop).
    destruct H as [H|H]; [now left|right].
    cbn [forallb] in H. now apply andb_true_iff in H as [_ H].
  - split.
    + apply call_silent; [exact Hop|].
      destruct H as [H|H]; [now left|right].
      cbn [forallb] in H. now apply andb_true_iff in H as [H%negb_true_iff _].
    + now destruct (call_keeps_resources op st Hop) as (_ & _ & _ & ->).
Qed.

Lemma calls_leave_driver_alone_witness :
  driver_calls
    (snd (run [OpGiveBoost; OpBeginCapture; OpEndCapture; OpRender; OpUpdate Sample.half]
              (Sample.unsupported, Sample.single_player))) = [].
Proof.
  apply (calls_leave_driver_alone
           [OpGiveBoost; OpBeginCapture; OpEndCapture; OpRender; OpUpdate Sample.half]
           Sample.unsupported Sample.single_player eq_refl).
  left. reflexivity.
Defined.

Lemma run_keeps_resources ops : forall st,
  forallb (fun op => negb (is_init op)) ops = true ->
  m_render_target (fst (run ops st)) = m_render_target (fst st) /\
  m_material (fst (run ops st)) = m_material (fst st).
Proof.
  induction ops as [|op ops IH]; intros st Hops; [split; reflexivity|].
  cbn [forallb] in Hops. apply andb_true_iff in Hops as [Hop%negb_true_iff Hops].
  change (run (op :: ops) st) with (run ops (exec (call op) st)).
  destruct (IH (exec (call op) st) Hops) as [-> ->].
  destruct (call_keeps_resources op st Hop) as (-> & -> & _). now split.
Qed.

(** X4: on capable hardware [init] allocates the render target at the
    optimal size for the screen (power-of-two and square as the hardware
    requires), and makes it texture 0 of a material of the shader's type
    with wireframe, lighting and depth writes off; no later call but [init]
    changes the target or the material. *)
Theorem init_sets_up_target_and_material
    (eng : Engine) (ops : list Op) (p : PostProcessing) (w : World) :
  capable eng = true ->
  forallb (fun op => negb (is_init op)) ops = true ->
  let target :=
    addRenderTargetTexture eng
      (getOptimalSize eng (getScreenSize eng)
         (negb (queryFeature eng EVDF_TEXTURE_NPOT))
         (negb (queryFeature eng EVDF_TEXTURE_NSQUARE))) "postprocess" in
  m_render_target (fst (run (OpInit eng :: ops) (p, w))) = target /\
  m_material (fst (run (OpInit eng :: ops) (p, w))) =
    {| MaterialType :=
         addHighLevelShaderMaterialFromFiles eng
           (getShaderDir eng ++ "motion_blur.vert") (getShaderDir eng ++ "motion_blur.frag");
       Texture0 := target; Wireframe := false; Lighting := false; ZWriteEnable := false |}.
Proof.
  intros Hc Hops target.
  change (run (OpInit eng :: ops) (p, w)) with (run ops (exec (init eng) (p, w))).
  destruct (run_keeps_resources ops (exec (init eng) (p, w)) Hops) as [-> ->].
  rewrite (exec_init_capable eng p w Hc). split; reflexivity.
Qed.

Lemma init_sets_up_target_and_material_witness :
  Texture0 (m_material (fst (run [OpInit (Sample.engine true true true false false (Some 7%positive));
                                   OpGiveBoost; OpBeginCapture; OpEndCapture; OpRender]
                                  (Sample.object, Sample.single_player)))) = Some 7%positive.
Proof.
  destruct (init_sets_up_target_and_material
              (Sample.engine true true true false false (Some 7%positive))
              [OpGiveBoost; OpBeginCapture; OpEndCapture; OpRender]
              Sample.object Sample.single_player eq_refl eq_refl) as [_ H].
  rewrite H. reflexivity.
Defined.

(** ** No null texture reaches the driver *)

Lemma init_makes_ready eng st : resources_ready (exec (init eng) st).
Proof.
  destruct st as [p w]. unfold resources_ready.
  destruct (capable eng) eqn:Hc.
  - rewrite (exec_init_capable eng p w Hc).
    cbn [fst snd m_supported m_postprocess_enabled m_render_target m_material Texture0].
    destruct (addRenderTargetTexture eng _ "postprocess"); [|discriminate].
    intros _ _. split; [discriminate|reflexivity].
  - destruct (exec_init_incapable eng p w Hc) as (qs & _ & ->).
    cbn [fst set_m_supported m_supported]. discriminate.
Qed.

Lemma call_keeps_ready op st :
  resources_ready st -> resources_ready (exec (call op) st).
Proof.
  intros Hr. destruct (is_init op) eqn:Hop.
  - destruct op; try discriminate. apply init_makes_ready.
  - unfold resources_ready in *.
    destruct (call_keeps_flags op st Hop) as [-> ->].
    destruct (call_keeps_resources op st Hop) as (-> & -> & _). exact Hr.
Qed.

Lemma existsb_snoc {A} (f : A -> bool) l x :
  existsb f (l ++ [x]) = existsb f l || f x.
Proof. rewrite existsb_app. cbn. now rewrite orb_false_r. Qed.

Lemma init_uses_no_null_texture eng st :
  existsb uses_null_texture (driver_calls (snd st)) = false ->
  existsb uses_null_texture (driver_calls (snd (exec (init eng) st))) = false.
Proof.
  destruct st as [p w]. cbn [snd]. intros Hw.
  destruct (capable eng) eqn:Hc.
  - rewrite (exec_init_capable eng p w Hc). cbn [snd driver_calls].
    rewrite existsb_app, Hw. reflexivity.
  - destruct (exec_init_incapable eng p w Hc) as (qs & Hqs & ->). cbn [snd driver_calls].
    rewrite existsb_app, Hw. cbn [orb].
    clear -Hqs. induction qs as [|c qs IH]; [reflexivity|].
    cbn [forallb] in Hqs. apply andb_true_iff in Hqs as [Hc Hqs].
    destruct c; try discriminate. cbn [existsb uses_null_texture orb]. now apply IH.
Qed.

Lemma not_skipped_on p w :
  skipped p w = false -> m_supported p = true /\ m_postprocess_enabled w = true.
Proof.
  unfold skipped. destruct (m_supported p), (m_postprocess_enabled w); try discriminate.
  now split.
Qed.

Lemma call_uses_no_null_texture op st :
  resources_ready st ->
  existsb uses_null_texture (driver_calls (snd st)) = false ->
  existsb uses_null_texture (driver_calls (snd (exec (call op) st))) = false.
Proof.
  destruct exec_render as (d & _ & _ & Hd & Hrender).
  intros Hr Hw. destruct (is_init op) eqn:Hop.
  { destruct op; try discriminate. now apply init_uses_no_null_texture. }
  destruct st as [p w]. unfold resources_ready in Hr. cbn [fst snd] in *.
  destruct (skipped p w) eqn:Hs.
  { now rewrite (call_silent op (p, w) Hop (or_introl Hs)). }
  destruct (not_skipped_on p w Hs) as [Hsup Hen].
  destruct (Hr Hsup Hen) as [Htarget Htex].
  destruct op; try discriminate;
    try (match goal with
         | |- context [exec (call ?o) _] =>
             rewrite (call_silent o (p, w) eq_refl (or_intror eq_refl)); exact Hw
         end);
    cbn [call].
  - rewrite exec_beginCapture, Hs.
    destruct (F32.leb (m_boost_amount p) F32.zero); [exact Hw|].
    cbn [snd log_driver_call driver_calls]. rewrite existsb_snoc, Hw.
    cbn [orb uses_null_texture]. now destruct (m_render_target p).
  - rewrite exec_endCapture, Hs. cbn [negb andb].
    destruct (m_used_pp_this_frame p); [|exact Hw].
    cbn [snd log_driver_call driver_calls]. now rewrite existsb_snoc, Hw.
  - rewrite Hrender, Hs. cbn [negb andb].
    destruct (m_used_pp_this_frame p); [|exact Hw].
    cbn [snd log_driver_call driver_calls]. rewrite !existsb_snoc, Hw, Hd.
    cbn [orb uses_null_texture]. rewrite Htex. now destruct (m_render_target p).
Qed.

(** X5: from [init] on, whatever the driver answers and whatever is called
    afterwards, further [init]s included, the scene is never redirected into
    a null render target and no material with a null texture 0 is handed to
    the driver: a failed allocation disables the feature before any frame. *)
Theorem no_null_texture_reaches_the_driver
    (eng : Engine) (ops : list Op) (p : PostProcessing) (w : World) :
  existsb uses_null_texture (driver_calls w) = false ->
  existsb uses_null_texture (driver_calls (snd (run (OpInit eng :: ops) (p, w)))) = false.
Proof.
  intros Hw.
  change (run (OpInit eng :: ops) (p, w)) with (run ops (exec (init eng) (p, w))).
  pose proof (init_makes_ready eng (p, w)) as Hr.
  pose proof (init_uses_no_null_texture eng (p, w) Hw) as Hn.
  revert Hr Hn. generalize (exec (init eng) (p, w)).
  induction ops as [|op ops IH]; intros st Hr Hn; [exact Hn|].
  change (run (op :: ops) st) with (run ops (exec (call op) st)).
  apply IH; [now apply call_keeps_ready | now apply call_uses_no_null_texture].
Qed.

Lemma no_null_texture_reaches_the_driver_witness :
  existsb uses_null_texture
    (driver_calls
       (snd (run [OpInit (Sample.engine true true true true true None);
                  OpGiveBoost; OpBeginCapture; OpEndCapture; OpRender]
                 (Sample.object, Sample.single_player)))) = false.
Proof.
  apply (no_null_texture_reaches_the_driver
           (Sample.engine true true true true true None)
           [OpGiveBoost; OpBeginCapture; OpEndCapture; OpRender]
           Sample.object Sample.single_player).
  reflexivity.
Defined.

(** ** Termination and construction *)

Lemma exec_shut st : exec shut st = st.
Proof. destruct st as [p w]. step_m. now destruct (negb (m_supported p)). Qed.

(** X6: [shut] releases and changes nothing, whether the feature is
    supported or not: leaving every [shut] out of a sequence of calls gives
    the same object, the same configuration and the same calls on the
    driver. *)
Theorem shut_has_no_effect (ops : list Op) (st : State) :
  run (filter (fun op => negb (is_shut op)) ops) st = run ops st.
Proof.
  revert st. induction ops as [|op ops IH]; intros st; [reflexivity|].
  rewrite run_cons. cbn [filter].
  destruct op; cbn [is_shut negb]; rewrite ?run_cons, ?IH; try reflexivity.
  cbn [call]. now rewrite exec_shut.
Qed.

(** X7: the constructor sets the boost only, and [init] does not touch
    [m_used_pp_this_frame] either.  So a [render] that follows a successful
    [init] with no [beginCapture] in between draws the quad exactly when
    that uninitialised member happens to hold true. *)
Theorem render_right_after_init_reads_an_unset_flag
    (eng : Engine) (uninitialised : PostProcessing) (w : World) :
  capable eng = true ->
  m_postprocess_enabled (snd (exec (init eng) (PostProcessing_new uninitialised, w))) = true ->
  (getNumPlayers w <= 1)%N ->
  exists d,
    is_quad_draw d = true /\
    driver_calls (snd (run [OpInit eng; OpRender] (PostProcessing_new uninitialised, w))) =
      driver_calls (snd (exec (init eng) (PostProcessing_new uninitialised, w))) ++
      (if m_used_pp_this_frame uninitialised
       then [SetMaterial (m_material (fst (exec (init eng) (PostProcessing_new uninitialised, w))));
             d]
       else []).
Proof.
  intros Hc Hen Hn.
  destruct exec_render as (d & Hq & _ & _ & Hr). exists d. split; [exact Hq|].
  change (run [OpInit eng; OpRender] (PostProcessing_new uninitialised, w))
    with (exec render (exec (init eng) (PostProcessing_new uninitialised, w))).
  rewrite (exec_init_capable eng _ w Hc) in *. cbv zeta in *. rewrite Hr.
  cbn [fst snd m_postprocess_enabled] in Hen.
  unfold skipped.
  cbn [fst snd m_supported m_postprocess_enabled getNumPlayers m_used_pp_this_frame
       m_material PostProcessing_new set_m_boost_amount].
  rewrite Hen. apply N.ltb_ge in Hn. rewrite Hn. cbn [negb orb andb].
  destruct (m_used_pp_this_frame uninitialised).
  - cbn [log_driver_call driver_calls m_material]. now rewrite <- !app_assoc.
  - now rewrite app_nil_r.
Qed.

Lemma render_right_after_init_reads_an_unset_flag_witness :
  List.length
    (driver_calls
       (snd (run [OpInit (Sample.engine true true true true true (Some 5%positive)); OpRender]
                 (PostProcessing_new (set_m_used_pp_this_frame true Sample.object),
                  Sample.single_player)))) = 11%nat.
Proof.
  destruct (render_right_after_init_reads_an_unset_flag
              (Sample.engine true true true true true (Some 5%positive))
              (set_m_used_pp_this_frame true Sample.object) Sample.single_player
              eq_refl eq_refl ltac:(vm_compute; discriminate)) as (d & _ & H).
  rewrite H. reflexivity.
Defined.

(** ** The range of the boost *)

Lemma call_keeps_boost_in_range op st :
  nonneg_finite (boost st) = true -> F32.leb (boost st) F32.c2_5 = true ->
  op_dt_nonneg op = true ->
  nonneg_finite (boost (exec (call op) st)) = true /\
  F32.leb (boost (exec (call op) st)) F32.c2_5 = true.
Proof.
  intros Hb Hle Hop. destruct op; try (rewrite boost_exec_call; now split).
  destruct st as [p w]. cbn [call op_dt_nonneg] in *. unfold boost in Hb, Hle. cbn [fst] in Hb, Hle.
  destruct (update_step dt p w Hb Hop) as (Hb' & Hle').
  split; [exact Hb'|].
  destruct (nonneg_finite_valid _ Hb) as [Hv Hn].
  destruct (nonneg_finite_valid _ Hb') as [Hv' Hn'].
  apply (leb_scaled _ F32.c2_5 Hv' eq_refl Hn' ltac:(discriminate)).
  apply (leb_scaled _ F32.c2_5 Hv eq_refl Hn ltac:(discriminate)) in Hle.
  cbv zeta in Hle'. lia.
Qed.

(** X8: as long as every [update] is given a [dt >= 0], and whatever else is
    called in whatever order, a boost that is finite and between 0 and 2.5,
    as it is after the constructor and after [giveBoost], stays finite and
    between 0 and 2.5: this is the range of the shader's uniform. *)
Theorem boost_stays_between_0_and_2_5 (ops : list Op) (st : State) :
  nonneg_finite (boost st) = true -> F32.leb (boost st) F32.c2_5 = true ->
  forallb op_dt_nonneg ops = true ->
  nonneg_finite (boost (run ops st)) = true /\
  F32.leb (boost (run ops st)) F32.c2_5 = true.
Proof.
  revert st. induction ops as [|op ops IH]; intros st Hb Hle Hops; [now split|].
  cbn [forallb] in Hops. apply andb_true_iff in Hops as [Hop Hops].
  change (run (op :: ops) st) with (run ops (exec (call op) st)).
  destruct (call_keeps_boost_in_range op st Hb Hle Hop) as [Hb' Hle'].
  now apply IH.
Qed.

Lemma boost_stays_between_0_and_2_5_witness :
  F32.leb (boost (run [OpGiveBoost; OpUpdate Sample.dt_frame; OpBeginCapture;
                       OpUpdate Sample.dt_tiny; OpGiveBoost; OpUpdate Sample.half]
                      (Sample.object, Sample.single_player))) F32.c2_5 = true.
Proof.
  apply (boost_stays_between_0_and_2_5
           [OpGiveBoost; OpUpdate Sample.dt_frame; OpBeginCapture;
            OpUpdate Sample.dt_tiny; OpGiveBoost; OpUpdate Sample.half]
           (Sample.object, Sample.single_player)); reflexivity.
Defined.

(** ** A frame time that is not a number *)

Lemma update_keeps_nan dt p w :
  m_boost_amount p = S754_nan -> exec (update dt) (p, w) = (p, w).
Proof. intros H. rewrite exec_update, H. reflexivity. Qed.

Lemma run_updates_keep_nan dts : forall p w,
  m_boost_amount p = S754_nan -> run (map OpUpdate dts) (p, w) = (p, w).
Proof.
  induction dts as [|dt dts IH]; intros p w H; [reflexivity|].
  change (run (map OpUpdate (dt :: dts)) (p, w))
    with (run (map OpUpdate dts) (exec (update dt) (p, w))).
  rewrite update_keeps_nan by exact H. now apply IH.
Qed.

(** X9: [update] does not check its argument.  Given a NaN while the boost
    is positive, it stores NaN; from then on no [update] changes the boost
    again, and [beginCapture], past its guard, captures every frame. *)
Theorem nan_frame_time_freezes_the_boost
    (dt : F32.float32) (dts : list F32.float32) (p : PostProcessing) (w : World) :
  F32.ltb F32.zero (m_boost_amount p) = true -> F32.is_nan dt = true ->
  boost (exec (update dt) (p, w)) = S754_nan /\
  run (map OpUpdate dts) (exec (update dt) (p, w)) = exec (update dt) (p, w) /\
  (skipped p w = false ->
   exec beginCapture (exec (update dt) (p, w)) =
     (set_m_used_pp_this_frame true (set_m_boost_amount S754_nan p),
      log_driver_call (SetRenderTargetTexture (m_render_target p) true true) w)).
Proof.
  intros Hpos Hnan. destruct dt; try discriminate.
  assert (Hexec : exec (update S754_nan) (p, w) = (set_m_boost_amount S754_nan p, w)).
  { rewrite exec_update, Hpos.
    destruct (m_boost_amount p) as [s|[|]| |[|] m e]; try discriminate; reflexivity. }
  rewrite Hexec. split; [reflexivity|]. split.
  - now apply run_updates_keep_nan.
  - intros Hs. rewrite exec_beginCapture.
    change (skipped (set_m_boost_amount S754_nan p) w) with (skipped p w). rewrite Hs. reflexivity.
Qed.

Lemma nan_frame_time_freezes_the_boost_witness :
  boost (run (map OpUpdate [Sample.dt_frame; F32.one])
             (exec (update S754_nan) (Sample.boosted, Sample.single_player))) = S754_nan.
Proof.
  destruct (nan_frame_time_freezes_the_boost S754_nan [Sample.dt_frame; F32.one]
              Sample.boosted Sample.single_player eq_refl eq_refl) as (H1 & H2 & _).
  rewrite H2. exact H1.
Defined.

(** ** Rounding from below *)

Section RoundingBelow.
Variables prec emax : Z.
Hypothesis Hprec : 0 < prec.
Hypothesis Hemax : prec < emax.

Abbreviation emin := (emin prec emax).
Abbreviation fexp := (fexp prec emax).



End RoundingBelow.

(** ** A frame time that is negative *)





(** ** Rounding without loss *)

Section RoundingExact.
Variables prec emax : Z.
Hypothesis Hprec : 0 < prec.
Hypothesis Hemax : prec < emax.

Abbreviation emin := (emin prec emax).
Abbreviation fexp := (fexp prec emax).

(** When no bit is lost in the shift, rounding keeps the value. *)
Lemma binary_round_aux_exact s mz e u :
  u <= e -> u <= emin -> e <= fexp (Zpos (digits2_pos mz) + e) ->
  Zpos mz mod 2 ^ (fexp (Zpos (digits2_pos mz) + e) - e) = 0 ->
  exists m' e',
    Zpos m' * 2 ^ (e' - u) = Zpos mz * 2 ^ (e - u) /\
    canonical_mantissa prec emax m' e' = true /\
    binary_round_aux prec emax s (Zpos mz) e loc_Exact =
      if e' <=? emax - prec then S754_finite s m' e' else S754_infinity s.
Proof.
  intros Hue Hu He Hmod.
  remember (fexp (Zpos (digits2_pos mz) + e)) as E eqn:HE.
  assert (HEmin : emin <= E) by (rewrite HE; apply fexp_ge_emin).
  destruct (binary_round_aux_spec prec emax Hprec s mz e E HE He)
    as (m1 & Hm1 & _ & Hshape).
  pose proof (pow2_pos (E - e) ltac:(lia)) as HP.
  pose proof (Z.div_mod (Zpos mz) (2 ^ (E - e)) ltac:(lia)) as Hdm.
  rewrite Hmod in Hdm.
  assert (Hq : Zpos mz = m1 * 2 ^ (E - e)) by (destruct Hm1 as [-> | [Hnz _]]; lia).
  destruct Hshape as [[-> _] | (m' & e' & HEe' & Hm' & Hc & Hres)]; [lia|].
  exists m', e'. split; [|now split].
  rewrite (pow2_split E e' u) by lia.
  rewrite Z.mul_assoc, Hm', Hq, <- Z.mul_assoc, <- (pow2_split e E u) by lia.
  reflexivity.
Qed.

Lemma binary_round_exact s m e :
  emin <= e ->
  (Zpos m * 2 ^ (e - emin)) mod 2 ^ (fexp (Zpos (digits2_pos m) + e) - emin) = 0 ->
  exists m' e',
    Zpos m' * 2 ^ (e' - emin) = Zpos m * 2 ^ (e - emin) /\
    canonical_mantissa prec emax m' e' = true /\
    binary_round prec emax s m e =
      if e' <=? emax - prec then S754_finite s m' e' else S754_infinity s.
Proof.
  intros Hemin Hmod. unfold binary_round.
  pose proof (binary_round_pre prec emax m e) as H.
  destruct (shl_align m e _) as [mz ez]. destruct H as (H1 & H2 & H3 & H4).
  specialize (H2 Hemin).
  assert (Hd : Zpos (digits2_pos mz) + ez = Zpos (digits2_pos m) + e).
  { rewrite (digits2_pos_shift m mz (e - ez)) by (assumption || lia). lia. }
  assert (HV : Zpos mz * 2 ^ (ez - emin) = Zpos m * 2 ^ (e - emin)).
  { rewrite H4, <- Z.mul_assoc, <- (pow2_split ez e emin) by lia. reflexivity. }
  rewrite <- HV, <- Hd in Hmod. rewrite <- HV.
  remember (fexp (Zpos (digits2_pos mz) + ez)) as E eqn:HE.
  pose proof (pow2_pos (E - ez) ltac:(lia)) as HP.
  pose proof (pow2_pos (ez - emin) ltac:(lia)) as HS.
  rewrite (pow2_split ez E emin) in Hmod by lia.
  rewrite Z.mul_mod_distr_r in Hmod by lia.
  rewrite HE in *.
  apply binary_round_aux_exact; first [assumption | lia].
Qed.

End RoundingExact.

(** ** Products and differences without rounding *)

Lemma pow2_divide a b : 0 <= a <= b -> (2 ^ a | 2 ^ b).
Proof.
  intros H. exists (2 ^ (b - a)). rewrite <- Z.pow_add_r by lia. f_equal. lia.
Qed.

Lemma mod_pow2_divide a k : 0 <= k -> a mod 2 ^ k = 0 <-> (2 ^ k | a).
Proof. intros Hk. apply Z.mod_divide. pose proof (pow2_pos k Hk). lia. Qed.

(** The product [dt * 3.5f] is exact for a [dt] below [8/7] that is a
    multiple of [2^-21]. *)
Lemma mul_c3_5_exact mx ex :
  bounded F32.prec F32.emax mx ex = true ->
  (Zpos mx * 2 ^ (ex + 149)) mod 2 ^ 128 = 0 ->
  7 * (Zpos mx * 2 ^ (ex + 149)) < 2 ^ 152 ->
  2 * scaled32 (F32.mul (S754_finite false mx ex) F32.c3_5) = 7 * (Zpos mx * 2 ^ (ex + 149)).
Proof.
  intros Hb Hgrid Hsmall.
  destruct (mul_c3_5_near mx ex Hb) as [Hnear _]. cbv zeta in Hnear.
  destruct (Hnear Hsmall) as [Hfin _]. clear Hnear.
  apply (bounded_inv F32.prec F32.emax) in Hb as [Hc _].
  pose proof (canonical_inv F32.prec F32.emax F32_prec_pos _ _ Hc) as (_ & Hemin & _).
  change (emin F32.prec F32.emax) with (-149) in Hemin.
  pose proof (pow2_pos (ex + 149) ltac:(lia)) as Hsd.
  assert (Hpre : ex + -22 <= fexp F32.prec F32.emax (Zpos (digits2_pos (mx * 14680064)) + (ex + -22))).
  { assert (24 <= Zpos (digits2_pos (mx * 14680064))).
    { destruct (Z_le_gt_dec 24 (Zpos (digits2_pos (mx * 14680064)))) as [|Hgt]; [assumption|exfalso].
      assert (Zpos (mx * 14680064) < 2 ^ 23) by (apply digits_le_iff; lia).
      rewrite Pos2Z.inj_mul in *. change (2 ^ 23) with 8388608 in *. lia. }
    unfold fexp, F32.prec. lia. }
  assert (HV : Zpos (mx * 14680064) * 2 ^ (ex + -22 - -171) = 7 * 2 ^ 21 * (Zpos mx * 2 ^ (ex + 149))).
  { replace (ex + -22 - -171) with (ex + 149) by lia.
    rewrite Pos2Z.inj_mul. change (2 ^ 21) with 2097152. lia. }
  remember (fexp F32.prec F32.emax (Zpos (digits2_pos (mx * 14680064)) + (ex + -22))) as E eqn:HE.
  assert (HEmin : -149 <= E) by (rewrite HE; apply (fexp_ge_emin F32.prec F32.emax)).
  assert (HE22 : E <= -22).
  { assert (Hd : Zpos (digits2_pos (mx * 14680064)) + (ex + -22) <= 2).
    { apply (digits_bound_upper _ _ (-171)); [lia|]. rewrite HV.
      change (2 ^ (2 - -171)) with (2 ^ 21 * 2 ^ 152). nia. }
    rewrite HE; unfold fexp, F32.prec, SpecFloat.emin, F32.emax; lia. }
  assert (Hdiv : Zpos (mx * 14680064) mod 2 ^ (E - (ex + -22)) = 0).
  { apply mod_pow2_divide; [lia|].
    rewrite Pos2Z.inj_mul. change (Zpos 14680064) with (7 * 2 ^ 21).
    destruct (Z_le_gt_dec (-21) ex) as [Hex|Hex].
    - apply Z.divide_mul_r, Z.divide_mul_r. apply pow2_divide. lia.
    - apply mod_pow2_divide in Hgrid; [|lia].
      replace (2 ^ 128) with (2 ^ (-21 - ex) * 2 ^ (ex + 149)) in Hgrid
        by (rewrite <- Z.pow_add_r by lia; f_equal; lia).
      apply Z.mul_divide_cancel_r in Hgrid; [|lia].
      apply Z.divide_trans with (2 ^ (-21 - ex) * 2 ^ 21).
      + rewrite <- Z.pow_add_r by lia. apply pow2_divide. lia.
      + replace (Zpos mx * (7 * 2 ^ 21)) with (Zpos mx * 7 * 2 ^ 21) by lia.
        apply Z.mul_divide_mono_r. now apply Z.divide_mul_l. }
  rewrite HE in Hdiv, Hpre.
  destruct (binary_round_aux_exact F32.prec F32.emax F32_prec_pos false (mx * 14680064)
              (ex + -22) (-171) ltac:(lia) ltac:(cbv; discriminate) Hpre Hdiv)
    as (m' & e' & Hval & Hc' & Hres).
  change (binary_round_aux F32.prec F32.emax false (Zpos (mx * 14680064)) (ex + -22) loc_Exact)
    with (F32.mul (S754_finite false mx ex) F32.c3_5) in Hres.
  rewrite Hres in Hfin |- *.
  destruct (e' <=? F32.emax - F32.prec); [|discriminate Hfin].
  cbn [scaled cond_Zopp]. change (emin F32.prec F32.emax) with (-149).
  pose proof (canonical_inv F32.prec F32.emax F32_prec_pos _ _ Hc') as (_ & He'min & _).
  change (emin F32.prec F32.emax) with (-149) in He'min.
  rewrite HV in Hval.
  rewrite (pow2_split (-149) e' (-171)) in Hval by lia.
  change (2 ^ (-149 - -171)) with (2 * 2 ^ 21) in Hval.
  pose proof (pow2_pos 21 ltac:(lia)). nia.
Qed.

(** The clamped difference of two multiples of [2^-22], the minuend below
    4, is exact. *)
Lemma clamp_sub_exact mx ex p :
  bounded F32.prec F32.emax mx ex = true -> nonneg_finite p = true ->
  scaled32 (S754_finite false mx ex) < 2 ^ 151 ->
  scaled32 (S754_finite false mx ex) mod 2 ^ 127 = 0 ->
  scaled32 p mod 2 ^ 127 = 0 ->
  scaled32 (clamp (F32.sub (S754_finite false mx ex) p))
    = Z.max 0 (scaled32 (S754_finite false mx ex) - scaled32 p).
Proof.
  intros Hbx Hp Hlt4 Hgx Hgp.
  pose proof (bounded_scaled_lt F32.prec F32.emax F32_prec_pos _ _ Hbx) as Hx.
  destruct p as [sp|sp| |[|] my ey]; try discriminate; unfold F32.sub; cbn [SFsub].
  - (* p = 0 *) fsimp. lia.
  - (* p finite *)
    rewrite shl_align_min_l, shl_align_min_r. cbn [cond_Zopp].
    cbn [nonneg_finite] in Hp.
    pose proof (bounded_scaled_lt F32.prec F32.emax F32_prec_pos _ _ Hp) as Hy.
    apply (bounded_inv F32.prec F32.emax) in Hp as [Hcy _].
    pose proof (canonical_inv F32.prec F32.emax F32_prec_pos _ _ Hcy) as (_ & Heminy & _).
    pose proof (bounded_inv F32.prec F32.emax _ _ Hbx) as [Hcx _].
    pose proof (canonical_inv F32.prec F32.emax F32_prec_pos _ _ Hcx) as (_ & Heminx & _).
    remember (Z.min ex ey) as ez eqn:Hez.
    assert (Hezmin : emin F32.prec F32.emax <= ez) by lia.
    pose proof (pow2_pos (ez - emin F32.prec F32.emax) ltac:(lia)) as Hpz.
    pose proof (pow2_pos (ex - ez) ltac:(lia)) as Hpx.
    pose proof (pow2_pos (ey - ez) ltac:(lia)) as Hpy.
    apply mod_pow2_divide in Hgx; [|lia]. apply mod_pow2_divide in Hgp; [|lia].
    pose proof (Z.divide_sub_r _ _ _ Hgx Hgp) as Hgd.
    cbn [scaled cond_Zopp] in *.
    rewrite (pow2_split ez ex (emin F32.prec F32.emax)) in * by lia.
    rewrite (pow2_split ez ey (emin F32.prec F32.emax)) in * by lia.
    remember (Zpos mx * 2 ^ (ex - ez)) as X eqn:EX.
    remember (Zpos my * 2 ^ (ey - ez)) as Y eqn:EY.
    destruct (X - Y) as [|M|M] eqn:HM; cbn [binary_normalize].
    + fsimp. nia.
    + assert (HV : Zpos M * 2 ^ (ez - emin F32.prec F32.emax)
                   = X * 2 ^ (ez - emin F32.prec F32.emax) - Y * 2 ^ (ez - emin F32.prec F32.emax))
        by nia.
      assert (HMle : Zpos M * 2 ^ (ez - emin F32.prec F32.emax)
                     <= Zpos mx * 2 ^ (ex - emin F32.prec F32.emax)).
      { rewrite (pow2_split ez ex (emin F32.prec F32.emax)) by lia. nia. }
      assert (HE : fexp F32.prec F32.emax (Zpos (digits2_pos M) + ez) <= -22).
      { assert (Zpos (digits2_pos M) + ez <= 2); [|unfold fexp, F32.prec, SpecFloat.emin, F32.emax; lia].
        apply (digits_bound_upper _ _ (emin F32.prec F32.emax)); [lia|].
        change (2 ^ (2 - emin F32.prec F32.emax)) with (2 ^ 151). nia. }
      pose proof (fexp_ge_emin F32.prec F32.emax (Zpos (digits2_pos M) + ez)) as HEmin.
      assert (Hmod : (Zpos M * 2 ^ (ez - emin F32.prec F32.emax))
                     mod 2 ^ (fexp F32.prec F32.emax (Zpos (digits2_pos M) + ez)
                              - emin F32.prec F32.emax) = 0).
      { apply mod_pow2_divide; [lia|]. rewrite HV.
        apply Z.divide_trans with (2 ^ 127);
          [|destruct Hgd as [k Hk]; exists k; rewrite <- Hk, EX, EY; ring].
        apply pow2_divide. change (emin F32.prec F32.emax) with (-149) in *. lia. }
      destruct (binary_round_exact F32.prec F32.emax F32_prec_pos false M ez Hezmin Hmod)
        as (m' & e' & Hval & _ & Hres).
      destruct (binary_round_le F32.prec F32.emax F32_prec_pos false M ez mx ex Hezmin Hbx HMle)
        as [Hz | (m'' & e'' & Hf & _ & _)]; rewrite Hres in *.
      * destruct (e' <=? _); discriminate Hz.
      * destruct (e' <=? _); [|discriminate Hf]. fsimp. nia.
    + destruct (binary_round_shape F32.prec F32.emax F32_prec_pos true M ez);
        fsimp; nia.
Qed.

(** ** Frame times on a grid *)

Lemma nonneg_valid_finite x :
  nonneg_valid x = true -> F32.is_finite x = true -> nonneg_finite x = true.
Proof. destruct x as [s|[|]| |[|] m e]; try discriminate; intros H _; exact H. Qed.

Lemma Zsum_scaled_nonneg dts :
  forallb nonneg_finite dts = true -> 0 <= Zsum (map scaled32 dts).
Proof.
  induction dts as [|dt dts IH]; [reflexivity|].
  cbn [forallb map Zsum]. intros [Hdt Hdts]%andb_true_iff.
  pose proof (nonneg_finite_scaled dt Hdt). specialize (IH Hdts). lia.
Qed.

(** One [update] from a boost below 4 that is a multiple of [2^-22], by a
    [dt] that is a multiple of [2^-21]: no rounding takes place. *)
Lemma update_step_exact dt p w :
  nonneg_finite (m_boost_amount p) = true ->
  scaled32 (m_boost_amount p) < 2 ^ 151 ->
  scaled32 (m_boost_amount p) mod 2 ^ 127 = 0 ->
  nonneg_finite dt = true -> scaled32 dt mod 2 ^ 128 = 0 ->
  let b' := boost (exec (update dt) (p, w)) in
  2 * scaled32 b' = Z.max 0 (2 * scaled32 (m_boost_amount p) - 7 * scaled32 dt) /\
  scaled32 b' mod 2 ^ 127 = 0.
Proof.
  intros Hb Hlt4 Hgb Hdt Hgd. rewrite exec_update. unfold boost. cbv zeta.
  pose proof (nonneg_finite_scaled dt Hdt) as Hsd.
  destruct (m_boost_amount p) as [s|s| |[|] m e] eqn:Eb; try discriminate.
  - change (F32.ltb F32.zero (S754_zero s)) with false. cbn [fst]. rewrite Eb.
    cbn [scaled]. split; [lia|reflexivity].
  - change (F32.ltb F32.zero (S754_finite false m e)) with true.
    cbn [fst set_m_boost_amount m_boost_amount].
    cbn [nonneg_finite] in Hb.
    pose proof (mul_c3_5_nonneg dt (nonneg_finite_leb dt Hdt)) as Hp.
    pose proof (clamp_sub_le m e _ Hb Hp) as (_ & _ & Hzero). cbv zeta in Hzero.
    assert (Hcases :
      (nonneg_finite (F32.mul dt F32.c3_5) = true /\
       2 * scaled32 (F32.mul dt F32.c3_5) = 7 * scaled32 dt) \/
      2 ^ 151 <= scaled32 (F32.mul dt F32.c3_5) /\ 2 ^ 152 <= 7 * scaled32 dt).
    { destruct dt as [s|s| |[|] md ed]; try discriminate.
      - left. split; reflexivity.
      - cbn [nonneg_finite] in Hdt.
        pose proof (mul_c3_5_near md ed Hdt) as [Hsmall Hbig]. cbv zeta in Hsmall, Hbig.
        change (scaled32 (S754_finite false md ed)) with (Zpos md * 2 ^ (ed + 149)) in *.
        destruct (Z_lt_le_dec (7 * (Zpos md * 2 ^ (ed + 149))) (2 ^ 152)) as [Hs|Hl].
        + left. destruct (Hsmall Hs) as [Hfin _]. split.
          * now apply nonneg_valid_finite.
          * now apply mul_c3_5_exact.
        + right. split; [now apply Hbig|assumption]. }
    destruct Hcases as [[Hpf Hpv] | [Hpbig Hdbig]].
    + assert (Hgp : scaled32 (F32.mul dt F32.c3_5) mod 2 ^ 127 = 0).
      { apply mod_pow2_divide; [lia|]. apply mod_pow2_divide in Hgd; [|lia].
        destruct Hgd as [k Hk]. exists (7 * k).
        change (2 ^ 128) with (2 * 2 ^ 127) in Hk. lia. }
      rewrite (clamp_sub_exact m e _ Hb Hpf Hlt4 Hgb Hgp). split; [lia|].
      apply mod_pow2_divide; [lia|].
      apply mod_pow2_divide in Hgb; [|lia]. apply mod_pow2_divide in Hgp; [|lia].
      destruct (Z.max_spec 0 (scaled32 (S754_finite false m e) - scaled32 (F32.mul dt F32.c3_5)))
        as [[_ ->] | [_ ->]].
      * now apply Z.divide_sub_r.
      * apply Z.divide_0_r.
    + rewrite (eqb_zero_scaled _ (Hzero ltac:(lia))).
      change (2 ^ 152) with (2 * 2 ^ 151) in Hdbig. split; [lia|reflexivity].
Qed.

Lemma grid_dt_inv dt :
  grid_dt dt = true -> nonneg_finite dt = true /\ scaled32 dt mod 2 ^ 128 = 0.
Proof.
  unfold grid_dt, multiple_of_pow2. intros [H1 H2%Z.eqb_eq]%andb_true_iff. now split.
Qed.

Lemma grid_dts_nonneg dts :
  forallb grid_dt dts = true -> forallb nonneg_finite dts = true.
Proof.
  intros H. apply forallb_forall. intros dt Hin.
  exact (proj1 (grid_dt_inv dt (proj1 (forallb_forall _ _) H dt Hin))).
Qed.

Lemma run_updates_exact dts : forall p w,
  nonneg_finite (m_boost_amount p) = true ->
  scaled32 (m_boost_amount p) < 2 ^ 151 ->
  scaled32 (m_boost_amount p) mod 2 ^ 127 = 0 ->
  forallb grid_dt dts = true ->
  2 * scaled32 (boost (run (map OpUpdate dts) (p, w)))
    = Z.max 0 (2 * scaled32 (m_boost_amount p) - 7 * Zsum (map scaled32 dts)).
Proof.
  induction dts as [|dt dts IH]; intros p w Hb Hlt4 Hgb Hdts.
  - unfold boost. cbn [map Zsum run fold_left fst].
    pose proof (nonneg_finite_scaled _ Hb). lia.
  - cbn [forallb] in Hdts. apply andb_true_iff in Hdts as [Hdt Hdts].
    destruct (grid_dt_inv dt Hdt) as [Hdtf Hgd].
    destruct (update_step dt p w Hb (nonneg_finite_leb dt Hdtf)) as (Hb1 & Hle1).
    destruct (update_step_exact dt p w Hb Hlt4 Hgb Hdtf Hgd) as (Hv1 & Hg1).
    change (run (map OpUpdate (dt :: dts)) (p, w))
      with (run (map OpUpdate dts) (exec (update dt) (p, w))).
    destruct (exec (update dt) (p, w)) as [p1 w1] eqn:E1.
    unfold boost in Hb1, Hle1, Hv1, Hg1. cbn [fst] in Hb1, Hle1, Hv1, Hg1.
    rewrite (IH p1 w1 Hb1 ltac:(lia) Hg1 Hdts).
    cbn [map Zsum].
    pose proof (Zsum_scaled_nonneg dts (grid_dts_nonneg dts Hdts)).
    pose proof (nonneg_finite_scaled dt Hdtf). lia.
Qed.

(** X11: on a grid there is no rounding at all.  From a boost of at most 2.5
    that is a multiple of [2^-22] (2.5 itself is one), updates whose [dt]
    are all finite, [>= 0] and multiples of [2^-21] s leave exactly
    [boost - 3.5 * (sum of the dt)] when that is [>= 0], and 0 when it is
    [<= 0]. *)
Theorem boost_decay_is_exact_on_a_grid
    (dts : list F32.float32) (p : PostProcessing) (w : World) :
  nonneg_finite (m_boost_amount p) = true ->
  F32.leb (m_boost_amount p) F32.c2_5 = true ->
  multiple_of_pow2 (-22) (m_boost_amount p) = true ->
  forallb grid_dt dts = true ->
  let bN := boost (run (map OpUpdate dts) (p, w)) in
  let remaining := (F32.to_Q (m_boost_amount p) - (7 # 2) * Qsum (map F32.to_Q dts))%Q in
  ((0 <= remaining)%Q -> (F32.to_Q bN == remaining)%Q) /\
  ((remaining <= 0)%Q -> F32.eqb bN F32.zero = true).
Proof.
  intros Hb Hle Hgb Hdts bN remaining.
  pose proof (scaled_c2_5_lt_4 _ Hb Hle) as Hlt4.
  apply Z.eqb_eq in Hgb. change (2 ^ (-22 + 149)) with (2 ^ 127) in Hgb.
  pose proof (grid_dts_nonneg dts Hdts) as Hdtsf.
  assert (Hdts0 : forallb (F32.leb F32.zero) dts = true).
  { apply forallb_forall. intros dt Hin. apply nonneg_finite_leb.
    exact (proj1 (forallb_forall _ _) Hdtsf dt Hin). }
  destruct (run_updates_bound dts p w Hb Hdts0) as (HbN & _). fold bN in HbN.
  pose proof (run_updates_exact dts p w Hb Hlt4 Hgb Hdts) as Hex. fold bN in Hex.
  unfold remaining.
  rewrite (to_Q_scaled _ Hb), (to_Q_scaled _ HbN), (Qsum_scaled _ Hdtsf).
  remember (scaled32 (m_boost_amount p)) as sb0.
  remember (scaled32 bN) as sbN eqn:EsbN.
  remember (Zsum (map scaled32 dts)) as total.
  change (2 ^ 149)%positive with 713623846352979940529142984724747568191373312%positive.
  split.
  - intros H.
    assert (H' : (inject_Z (7 * total) <= inject_Z (2 * sb0))%Q).
    { rewrite !inject_Z_mult.
      change (inject_Z 2) with 2%Q. change (inject_Z 7) with 7%Q. lra. }
    rewrite <- Zle_Qle in H'.
    assert (Heq : 2 * sbN + 7 * total = 2 * sb0) by lia.
    apply (f_equal inject_Z) in Heq.
    rewrite inject_Z_plus, !inject_Z_mult in Heq.
    change (inject_Z 2) with 2%Q in Heq. change (inject_Z 7) with 7%Q in Heq.
    assert (HeqQ : (2 * inject_Z sbN + 7 * inject_Z total == 2 * inject_Z sb0)%Q)
      by (rewrite Heq; reflexivity).
    lra.
  - intros H.
    assert (H' : (inject_Z (2 * sb0) <= inject_Z (7 * total))%Q).
    { rewrite !inject_Z_mult.
      change (inject_Z 2) with 2%Q. change (inject_Z 7) with 7%Q. lra. }
    rewrite <- Zle_Qle in H'.
    apply nonneg_finite_zero; [exact HbN|rewrite <- EsbN; lia].
Qed.

Lemma boost_decay_is_exact_on_a_grid_witness :
  (F32.to_Q (boost (run (map OpUpdate [Sample.quarter; Sample.quarter])
                        (Sample.boosted, Sample.single_player))) == 3 # 4)%Q.
Proof.
  destruct (boost_decay_is_exact_on_a_grid [Sample.quarter; Sample.quarter]
              Sample.boosted Sample.single_player eq_refl eq_refl eq_refl eq_refl)
    as [H _].
  rewrite H; [reflexivity|]. vm_compute. discriminate.
Defined.
